(** * The event dispatcher of mididings (src/engine.cc), embedded in Rocq

    The engine selects a patch for every inbound MIDI event, runs the event
    through the ctrl / pre / matched / post / sanitize pipeline, and performs
    scene switches with their exit and init patches.  The definitions below
    follow [Engine::sanitize_event], [Engine::get_matching_patch],
    [Engine::switch_scene], [Engine::process_scene_switch], [Engine::process],
    [Engine::process_event] and [Engine::run_cycle] statement by statement. *)

From Stdlib Require Import ZArith Lia Bool List.
From Stdlib.Strings Require Byte.
From stdpp Require Import base option numbers list gmap.

Local Open Scope Z_scope.

(** ** Events *)

(** Modelled from the spec: the enumeration [MidiEventType] (midi_event.hh)
    is not part of the sources at hand.  Its constructors are the tags that
    the switch of [sanitize_event] names, the kinds of the data model;
    [MIDI_EVENT_NONE] stands for every value the switch sends to its
    [default] label. *)
Inductive MidiEventType : Type :=
  | MIDI_EVENT_NONE
  | MIDI_EVENT_NOTEON
  | MIDI_EVENT_NOTEOFF
  | MIDI_EVENT_CTRL
  | MIDI_EVENT_PITCHBEND
  | MIDI_EVENT_AFTERTOUCH
  | MIDI_EVENT_POLY_AFTERTOUCH
  | MIDI_EVENT_PROGRAM
  | MIDI_EVENT_SYSEX
  | MIDI_EVENT_SYSCM_QFRAME
  | MIDI_EVENT_SYSCM_SONGPOS
  | MIDI_EVENT_SYSCM_SONGSEL
  | MIDI_EVENT_SYSCM_TUNEREQ
  | MIDI_EVENT_SYSRT_CLOCK
  | MIDI_EVENT_SYSRT_START
  | MIDI_EVENT_SYSRT_CONTINUE
  | MIDI_EVENT_SYSRT_STOP
  | MIDI_EVENT_SYSRT_SENSING
  | MIDI_EVENT_SYSRT_RESET
  | MIDI_EVENT_DUMMY.

#[global] Instance MidiEventType_eq_dec : EqDecision MidiEventType.
Proof. solve_decision. Defined.

(** Modelled from the spec: the declaration of [MidiEvent] (midi_event.hh) is
    not part of the sources at hand.  The data model lists the attributes
    note {number, velocity} and control {param, value}; engine.cc reaches them
    as [ev.note.note], [ev.note.velocity], [ev.ctrl.param], [ev.ctrl.value],
    and the record keeps one field per member path.  [sysex] is the shared
    pointer to the message bytes, [None] being the null pointer. *)
Record MidiEvent : Type := mkMidiEvent {
  type : MidiEventType;
  port : Z;
  channel : Z;
  note_note : Z;
  note_velocity : Z;
  ctrl_param : Z;
  ctrl_value : Z;
  sysex : option (list Byte.byte)
}.

Definition set_note_velocity (v : Z) (ev : MidiEvent) : MidiEvent :=
  mkMidiEvent (type ev) (port ev) (channel ev) (note_note ev) v
              (ctrl_param ev) (ctrl_value ev) (sysex ev).

Definition set_ctrl_value (v : Z) (ev : MidiEvent) : MidiEvent :=
  mkMidiEvent (type ev) (port ev) (channel ev) (note_note ev)
              (note_velocity ev) (ctrl_param ev) v (sysex ev).

Definition set_channel (c : Z) (ev : MidiEvent) : MidiEvent :=
  mkMidiEvent (type ev) (port ev) c (note_note ev)
              (note_velocity ev) (ctrl_param ev) (ctrl_value ev) (sysex ev).

(** Modelled from the spec: [MidiEvent dummy_ev; dummy_ev.type =
    MIDI_EVENT_DUMMY;] relies on the default constructor, which is declared
    with [MidiEvent]; a dummy carries no attributes, and every other field is
    0 or null here. *)
Definition dummy_ev : MidiEvent :=
  mkMidiEvent MIDI_EVENT_DUMMY 0 0 0 0 0 0 None.

(** ** Results of code that can leave defined behaviour

    [Fault] is what a null dereference, an access outside a vector, a
    dereferenced end iterator, an erase through a list that does not hold
    the element, or a failed [ASSERT] becomes. *)
Inductive result (A : Type) : Type :=
  | Ok (a : A)
  | Fault.
Arguments Ok {A} a.
Arguments Fault {A}.

(** ** Patches, scenes and the engine *)

(** A [Patch *] is a handle; what a patch does to the events of a range is
    the contract of the unit library, a parameter of the development. *)
Definition Patch : Type := nat.

(** Modelled from the spec: [Scene] is declared in engine.hh; a scene is a
    patch with an optional init patch and an optional exit patch.  The
    pointer [patch] is taken to be set, as [&*scene->patch] demands. *)
Record Scene : Type := mkScene {
  patch : Patch;
  init_patch : option Patch;
  exit_patch : option Patch
}.

Definition EventBuffer : Type := list MidiEvent.

(** Modelled from the spec: the class [Engine] is declared in engine.hh;
    these are its members that engine.cc reads or writes in the dispatcher,
    with the types the data model gives them.  [_backend] holds
    [num_out_ports()] (already cast to [int]) when a backend is attached.
    [_scenes] maps a scene number to the list of its subscenes.  The two
    tracking tables map a key to a [Patch *], which may be null; the
    constructor sizes them, and since no statement of engine.cc evicts an
    entry, none is lost here. *)
Record Engine : Type := mkEngine {
  _verbose : bool;
  _backend : option Z;
  _scenes : gmap Z (list Scene);
  _current_patch : option Patch;
  _current_scene : Z;
  _current_subscene : Z;
  _new_scene : Z;
  _new_subscene : Z;
  _noteon_patches : gmap (Z * Z * Z) (option Patch);
  _sustain_patches : gmap (Z * Z) (option Patch);
  _buffer : EventBuffer;
  _ctrl_patch : option Patch;
  _pre_patch : option Patch;
  _post_patch : option Patch
}.

Definition set_noteon_patches (m : gmap (Z * Z * Z) (option Patch)) (e : Engine) : Engine :=
  mkEngine (_verbose e) (_backend e) (_scenes e) (_current_patch e)
           (_current_scene e) (_current_subscene e) (_new_scene e)
           (_new_subscene e) m (_sustain_patches e) (_buffer e)
           (_ctrl_patch e) (_pre_patch e) (_post_patch e).

Definition set_sustain_patches (m : gmap (Z * Z) (option Patch)) (e : Engine) : Engine :=
  mkEngine (_verbose e) (_backend e) (_scenes e) (_current_patch e)
           (_current_scene e) (_current_subscene e) (_new_scene e)
           (_new_subscene e) (_noteon_patches e) m (_buffer e)
           (_ctrl_patch e) (_pre_patch e) (_post_patch e).

Definition set_new_scene (s : Z) (e : Engine) : Engine :=
  mkEngine (_verbose e) (_backend e) (_scenes e) (_current_patch e)
           (_current_scene e) (_current_subscene e) s
           (_new_subscene e) (_noteon_patches e) (_sustain_patches e)
           (_buffer e) (_ctrl_patch e) (_pre_patch e) (_post_patch e).

Definition set_new_subscene (s : Z) (e : Engine) : Engine :=
  mkEngine (_verbose e) (_backend e) (_scenes e) (_current_patch e)
           (_current_scene e) (_current_subscene e) (_new_scene e)
           s (_noteon_patches e) (_sustain_patches e)
           (_buffer e) (_ctrl_patch e) (_pre_patch e) (_post_patch e).

Definition set_current_patch (p : option Patch) (e : Engine) : Engine :=
  mkEngine (_verbose e) (_backend e) (_scenes e) p
           (_current_scene e) (_current_subscene e) (_new_scene e)
           (_new_subscene e) (_noteon_patches e) (_sustain_patches e)
           (_buffer e) (_ctrl_patch e) (_pre_patch e) (_post_patch e).

Definition set_current_scene (s : Z) (e : Engine) : Engine :=
  mkEngine (_verbose e) (_backend e) (_scenes e) (_current_patch e)
           s (_current_subscene e) (_new_scene e)
           (_new_subscene e) (_noteon_patches e) (_sustain_patches e)
           (_buffer e) (_ctrl_patch e) (_pre_patch e) (_post_patch e).

Definition set_current_subscene (s : Z) (e : Engine) : Engine :=
  mkEngine (_verbose e) (_backend e) (_scenes e) (_current_patch e)
           (_current_scene e) s (_new_scene e)
           (_new_subscene e) (_noteon_patches e) (_sustain_patches e)
           (_buffer e) (_ctrl_patch e) (_pre_patch e) (_post_patch e).

Definition set_buffer (b : EventBuffer) (e : Engine) : Engine :=
  mkEngine (_verbose e) (_backend e) (_scenes e) (_current_patch e)
           (_current_scene e) (_current_subscene e) (_new_scene e)
           (_new_subscene e) (_noteon_patches e) (_sustain_patches e)
           b (_ctrl_patch e) (_pre_patch e) (_post_patch e).

(** [Engine::set_processing] stores the three wrapper patches; its
    [ASSERT]s demand that none was stored before. *)
Definition set_processing (ctrl_patch pre_patch post_patch : option Patch) (e : Engine)
  : result Engine :=
  match _ctrl_patch e, _pre_patch e, _post_patch e with
  | None, None, None =>
      Ok (mkEngine (_verbose e) (_backend e) (_scenes e) (_current_patch e)
                   (_current_scene e) (_current_subscene e) (_new_scene e)
                   (_new_subscene e) (_noteon_patches e) (_sustain_patches e)
                   (_buffer e) ctrl_patch pre_patch post_patch)
  | _, _, _ => Fault
  end.

(** The engine with another ctrl patch and another pre patch. *)
Definition set_ctrl_pre (ctrl_patch pre_patch : option Patch) (e : Engine) : Engine :=
  mkEngine (_verbose e) (_backend e) (_scenes e) (_current_patch e)
           (_current_scene e) (_current_subscene e) (_new_scene e)
           (_new_subscene e) (_noteon_patches e) (_sustain_patches e)
           (_buffer e) ctrl_patch pre_patch (_post_patch e).

(** ** [Engine::sanitize_event]

    The C++ function edits [ev] in place and answers keep / drop; here it
    returns the answer together with the event as it is left.  The text
    written to [std::cout] is not modelled, but the call
    [_backend->num_out_ports()] made to decide about that text is: it
    dereferences [_backend], which the first test has just allowed to be
    null. *)
Definition sysex_invalid (data : list Byte.byte) : bool :=
  Nat.ltb (length data) 2
  || negb (Byte.eqb (nth 0 data Byte.x00) Byte.xf0)
  || negb (Byte.eqb (nth (length data - 1) data Byte.x00) Byte.xf7).

Definition sanitize_event (e : Engine) (ev : MidiEvent) : result (bool * MidiEvent) :=
  if (port ev <? 0)
     || match _backend e with Some n => n <=? port ev | None => false end
  then
    if _verbose e
    then match _backend e with
         | Some _ => Ok (false, ev)
         | None => Fault
         end
    else Ok (false, ev)
  else if (channel ev <? 0) || (15 <? channel ev) then Ok (false, ev)
  else
    match type ev with
    | MIDI_EVENT_NOTEON | MIDI_EVENT_NOTEOFF =>
        if (note_note ev <? 0) || (127 <? note_note ev) then Ok (false, ev)
        else
          let ev1 := set_note_velocity (Z.max 0 (Z.min 127 (note_velocity ev))) ev in
          if bool_decide (type ev1 = MIDI_EVENT_NOTEON) && (note_velocity ev1 <? 0)
          then Ok (false, ev1)
          else Ok (true, ev1)
    | MIDI_EVENT_CTRL =>
        if (ctrl_param ev <? 0) || (127 <? ctrl_param ev) then Ok (false, ev)
        else Ok (true, set_ctrl_value (Z.max 0 (Z.min 127 (note_velocity ev))) ev)
    | MIDI_EVENT_PITCHBEND =>
        Ok (true, set_ctrl_value (Z.max (-8192) (Z.min 8191 (ctrl_value ev))) ev)
    | MIDI_EVENT_AFTERTOUCH =>
        Ok (true, set_ctrl_value (Z.max 0 (Z.min 127 (note_velocity ev))) ev)
    | MIDI_EVENT_PROGRAM =>
        if (ctrl_value ev <? 0) || (127 <? ctrl_value ev) then Ok (false, ev)
        else Ok (true, ev)
    | MIDI_EVENT_SYSEX =>
        match sysex ev with
        | None => Fault
        | Some data => if sysex_invalid data then Ok (false, ev) else Ok (true, ev)
        end
    | MIDI_EVENT_POLY_AFTERTOUCH
    | MIDI_EVENT_SYSCM_QFRAME
    | MIDI_EVENT_SYSCM_SONGPOS
    | MIDI_EVENT_SYSCM_SONGSEL
    | MIDI_EVENT_SYSCM_TUNEREQ
    | MIDI_EVENT_SYSRT_CLOCK
    | MIDI_EVENT_SYSRT_START
    | MIDI_EVENT_SYSRT_CONTINUE
    | MIDI_EVENT_SYSRT_STOP
    | MIDI_EVENT_SYSRT_SENSING
    | MIDI_EVENT_SYSRT_RESET => Ok (true, ev)
    | MIDI_EVENT_DUMMY => Ok (false, ev)
    | MIDI_EVENT_NONE => Ok (false, ev)
    end.

(** ** [Engine::get_matching_patch] *)

(** Modelled from the spec: [make_notekey] is declared in engine.hh; the key
    of a note is (channel, note, port). *)
Definition make_notekey (ev : MidiEvent) : Z * Z * Z :=
  (channel ev, note_note ev, port ev).

(** Modelled from the spec: [make_sustainkey] is declared in engine.hh; the
    key of a sustain pedal is (channel, port). *)
Definition make_sustainkey (ev : MidiEvent) : Z * Z :=
  (channel ev, port ev).

(** [m.insert(std::make_pair(k, v))], with the meaning [insert] has on the
    associative containers with unique keys ([find], [end], [erase] are used
    on the same tables): the pair is added when [k] has no entry, and an
    existing entry stays as it is. *)
Definition map_insert_pair `{Countable K} {V : Type} (k : K) (v : V) (m : gmap K V) : gmap K V :=
  match m !! k with
  | Some _ => m
  | None => <[k := v]> m
  end.

Definition get_matching_patch (e : Engine) (ev : MidiEvent) : option Patch * Engine :=
  if bool_decide (type ev = MIDI_EVENT_NOTEON) then
    (_current_patch e,
     set_noteon_patches
       (map_insert_pair (make_notekey ev) (_current_patch e) (_noteon_patches e)) e)
  else if bool_decide (type ev = MIDI_EVENT_NOTEOFF) then
    match _noteon_patches e !! make_notekey ev with
    | Some p => (p, set_noteon_patches (delete (make_notekey ev) (_noteon_patches e)) e)
    | None => (_current_patch e, e)
    end
  else if bool_decide (type ev = MIDI_EVENT_CTRL)
          && (ctrl_param ev =? 64) && (ctrl_value ev =? 127) then
    (_current_patch e,
     set_sustain_patches
       (map_insert_pair (make_sustainkey ev) (_current_patch e) (_sustain_patches e)) e)
  else if bool_decide (type ev = MIDI_EVENT_CTRL)
          && (ctrl_param ev =? 64) && (ctrl_value ev =? 0) then
    match _sustain_patches e !! make_sustainkey ev with
    | Some p => (p, set_sustain_patches (delete (make_sustainkey ev) (_sustain_patches e)) e)
    | None => (_current_patch e, e)
    end
  else (_current_patch e, e).

(** ** [Engine::switch_scene] *)
Definition switch_scene (scene subscene : Z) (e : Engine) : Engine :=
  let e1 := if bool_decide (scene ≠ -1) then set_new_scene scene e else e in
  if bool_decide (subscene ≠ -1) then set_new_subscene subscene e1 else e1.

(** ** Buffers, ranges and the dispatcher monad

    [process] and [process_scene_switch] are templates over the buffer they
    work on: [run_cycle] hands them the member [_buffer], [process_event] a
    buffer of its own.  A [BufferRef] says which of the two objects a
    statement names. *)
Inductive BufferRef : Type :=
  | this_buffer   (* the member [_buffer] *)
  | local_buffer. (* the [Patch::EventBuffer buffer] of [process_event] *)

#[global] Instance BufferRef_eq_dec : EqDecision BufferRef.
Proof. solve_decision. Defined.

Record World : Type := mkWorld {
  eng : Engine;
  local : EventBuffer
}.

(** [B::Range r(it, buffer.end())]: from the position of [it] to the end of
    the buffer [it] points into, whatever is appended later. *)
Record Range : Type := mkRange {
  range_buffer : BufferRef;
  range_begin : nat
}.

Definition M (A : Type) : Type := World -> result (A * World).

Definition ret {A : Type} (a : A) : M A := fun w => Ok (a, w).

Definition bind {A B : Type} (m : M A) (k : A -> M B) : M B :=
  fun w => match m w with
           | Ok (a, w1) => k a w1
           | Fault => Fault
           end.

Definition fault {A : Type} : M A := fun _ => Fault.

Notation "'do' x <- m ; k" := (bind m (fun x => k))
  (at level 10, x name, m at level 100, k at level 200).
Notation "'do_' m ; k" := (bind m (fun _ => k))
  (at level 10, m at level 100, k at level 200).

Definition get_engine : M Engine := fun w => Ok (eng w, w).

Definition modify_engine (f : Engine -> Engine) : M unit :=
  fun w => Ok (tt, mkWorld (f (eng w)) (local w)).

Definition buffer_of (b : BufferRef) (w : World) : EventBuffer :=
  match b with
  | this_buffer => _buffer (eng w)
  | local_buffer => local w
  end.

Definition get_buffer (b : BufferRef) : M EventBuffer :=
  fun w => Ok (buffer_of b w, w).

Definition with_buffer (b : BufferRef) (l : EventBuffer) (w : World) : World :=
  match b with
  | this_buffer => mkWorld (set_buffer l (eng w)) (local w)
  | local_buffer => mkWorld (eng w) l
  end.

Definition put_buffer (b : BufferRef) (l : EventBuffer) : M unit :=
  fun w => Ok (tt, with_buffer b l w).

(** [it = buffer.insert(buffer.end(), ev); Range r(it, buffer.end());] *)
Definition insert_at_end (b : BufferRef) (ev : MidiEvent) : M Range :=
  do l <- get_buffer b;
  do_ put_buffer b (l ++ [ev]);
  ret (mkRange b (length l)).

Definition lift {A : Type} (r : result A) : M A :=
  fun w => match r with
           | Ok a => Ok (a, w)
           | Fault => Fault
           end.

(** [v[i]] on a [std::vector] with an [int] index: defined inside the vector
    only. *)
Definition vector_at {A : Type} (v : list A) (i : Z) : result A :=
  if i <? 0 then Fault
  else match v !! Z.to_nat i with
       | Some a => Ok a
       | None => Fault
       end.

(** Modelled from the spec: [units::Sanitize] and [Patch::Extended] are not
    part of the sources at hand.  The sanitize unit visits the events of the
    range in order, calls [sanitize_event] on each, leaves the kept event as
    [sanitize_event] left it and erases the dropped one from the buffer it
    was given.  Erasing is defined only when that buffer owns the range
    ([erase_ok]); a kept event is edited through the range itself. *)
Fixpoint Sanitize_units (e : Engine) (erase_ok : bool) (l : list MidiEvent)
  : result (list MidiEvent) :=
  match l with
  | [] => Ok []
  | ev :: l1 =>
      match sanitize_event e ev with
      | Fault => Fault
      | Ok (true, ev1) =>
          match Sanitize_units e erase_ok l1 with
          | Ok k => Ok (ev1 :: k)
          | Fault => Fault
          end
      | Ok (false, _) =>
          if erase_ok then Sanitize_units e erase_ok l1 else Fault
      end
  end.

(** [_sanitize_patch->process(b, r)] *)
Definition Sanitize_process (b : BufferRef) (r : Range) : M unit :=
  do e <- get_engine;
  do l <- get_buffer (range_buffer r);
  do k <- lift (Sanitize_units e (bool_decide (range_buffer r = b))
                               (drop (range_begin r) l));
  put_buffer (range_buffer r) (take (range_begin r) l ++ k).

(** ** What sanitize accepts

    The tests of [sanitize_event] that decide between keep and drop, written
    as predicates on an event: a valid port, a channel in 0..15, the check of
    the event's kind, and no dummy or unknown event. *)
Definition valid_port (backend : option Z) (ev : MidiEvent) : bool :=
  (0 <=? port ev)
  && match backend with Some n => port ev <? n | None => true end.

Definition valid_channel (ev : MidiEvent) : bool :=
  (0 <=? channel ev) && (channel ev <=? 15).

Definition kind_check (ev : MidiEvent) : bool :=
  match type ev with
  | MIDI_EVENT_NOTEON | MIDI_EVENT_NOTEOFF =>
      (0 <=? note_note ev) && (note_note ev <=? 127)
  | MIDI_EVENT_CTRL => (0 <=? ctrl_param ev) && (ctrl_param ev <=? 127)
  | MIDI_EVENT_PROGRAM => (0 <=? ctrl_value ev) && (ctrl_value ev <=? 127)
  | MIDI_EVENT_SYSEX =>
      match sysex ev with
      | Some data => negb (sysex_invalid data)
      | None => false
      end
  | MIDI_EVENT_DUMMY | MIDI_EVENT_NONE => false
  | _ => true
  end.

Definition passes_sanitize (backend : option Z) (ev : MidiEvent) : bool :=
  valid_port backend ev && valid_channel ev && kind_check ev.

(** The ranges sanitize clamps to. *)
Definition clamped (ev : MidiEvent) : bool :=
  match type ev with
  | MIDI_EVENT_NOTEON | MIDI_EVENT_NOTEOFF =>
      (0 <=? note_velocity ev) && (note_velocity ev <=? 127)
  | MIDI_EVENT_CTRL | MIDI_EVENT_AFTERTOUCH =>
      (0 <=? ctrl_value ev) && (ctrl_value ev <=? 127)
  | MIDI_EVENT_PITCHBEND =>
      (-8192 <=? ctrl_value ev) && (ctrl_value ev <=? 8191)
  | _ => true
  end.

(** An event as sanitize leaves it: accepted, and inside the clamped ranges. *)
Definition sane (backend : option Z) (ev : MidiEvent) : Prop :=
  passes_sanitize backend ev = true /\ clamped ev = true.

(** The members that are set up before dispatch begins, and the two
    tracking tables. *)
Definition same_setup (e e' : Engine) : Prop :=
  _verbose e' = _verbose e /\ _backend e' = _backend e
  /\ _scenes e' = _scenes e /\ _ctrl_patch e' = _ctrl_patch e
  /\ _pre_patch e' = _pre_patch e /\ _post_patch e' = _post_patch e.

Definition same_tables (e e' : Engine) : Prop :=
  _noteon_patches e' = _noteon_patches e
  /\ _sustain_patches e' = _sustain_patches e.

Definition other_buffer (b : BufferRef) : BufferRef :=
  match b with
  | this_buffer => local_buffer
  | local_buffer => this_buffer
  end.


Section Dispatcher.

(** The unit library: what patch [p] makes of the events of the range it
    is applied to.  Patches are immutable after construction. *)
Variable patch_process : Patch -> list MidiEvent -> list MidiEvent.

(** The scripted scene-switch handler: the [switch_scene] calls it makes
    when it is told the pending (scene, subscene). *)
Variable scene_switch_callback : Z -> Z -> list (Z * Z).

(** Modelled from the spec: [Patch::process] is not part of the sources at
    hand.  [p->process(buffer)] applies the patch to the whole buffer: the
    events of the buffer are replaced by what the patch makes of them. *)
Definition Patch_process_all (p : Patch) (b : BufferRef) : M unit :=
  do l <- get_buffer b;
  put_buffer b (patch_process p l).

(** Modelled from the spec: [p->process(buffer, r)] applies the patch to a
    range of the buffer: the events from the start of the range to the end
    of the buffer are replaced by what the patch makes of them, the events
    before the range stay.  The range must lie in [buffer]. *)
Definition Patch_process (p : Patch) (b : BufferRef) (r : Range) : M unit :=
  if bool_decide (range_buffer r = b) then
    do l <- get_buffer b;
    put_buffer b (take (range_begin r) l ++ patch_process p (drop (range_begin r) l))
  else fault.

Definition apply_requests (reqs : list (Z * Z)) (e : Engine) : Engine :=
  fold_left (fun acc req => switch_scene (fst req) (snd req) acc) reqs e.

(** *** [Engine::process_scene_switch] *)
Definition process_scene_switch (buffer : BufferRef) : M unit :=
  do e0 <- get_engine;
  if (_new_scene e0 =? -1) && (_new_subscene e0 =? -1) then ret tt
  else
    do_ (if Nat.ltb 1 (size (_scenes e0))
         then modify_engine
                (apply_requests
                   (scene_switch_callback (_new_scene e0) (_new_subscene e0)))
         else ret tt);
    do e <- get_engine;
    let scene_num :=
      if bool_decide (_new_scene e ≠ -1) then _new_scene e else _current_scene e in
    let subscene_num :=
      if bool_decide (_new_subscene e ≠ -1) then _new_subscene e else 0 in
    do_ match _scenes e !! scene_num with
        | Some subs =>
            if Z.of_nat (length subs) >? subscene_num then
              do scene <- lift (vector_at subs subscene_num);
              do_ (if bool_decide (_current_scene e ≠ -1) then
                     do prev_scene <-
                       lift (match _scenes e !! _current_scene e with
                             | Some ps => vector_at ps (_current_subscene e)
                             | None => Fault
                             end);
                     match exit_patch prev_scene with
                     | Some xp =>
                         do r <- insert_at_end buffer dummy_ev;
                         do_ Patch_process xp buffer r;
                         do_ match _post_patch e with
                             | Some pp => Patch_process pp buffer r
                             | None => ret tt
                             end;
                         Sanitize_process buffer r
                     | None => ret tt
                     end
                   else ret tt);
              do_ match init_patch scene with
                  | Some ip =>
                      do r <- insert_at_end buffer dummy_ev;
                      do_ Patch_process ip buffer r;
                      do_ match _post_patch e with
                          | Some pp => Patch_process pp buffer r
                          | None => ret tt
                          end;
                      Sanitize_process buffer r
                  | None => ret tt
                  end;
              modify_engine
                (fun e1 => set_current_subscene subscene_num
                             (set_current_scene scene_num
                                (set_current_patch (Some (patch scene)) e1)))
            else ret tt
        | None => ret tt
        end;
    modify_engine (fun e1 => set_new_subscene (-1) (set_new_scene (-1) e1)).

(** *** [Engine::process]

    [ASSERT] (util/debug.hh) is read as a check: [ASSERT(buffer.empty())]
    stops the run on a buffer that is not empty.
    The last statement names the member [_buffer], not the parameter. *)
Definition process (buffer : BufferRef) (ev : MidiEvent) : M unit :=
  do l0 <- get_buffer buffer;
  match l0 with
  | _ :: _ => fault
  | [] =>
      do e0 <- get_engine;
      let '(matched, e1) := get_matching_patch e0 ev in
      do_ modify_engine (fun _ => e1);
      do_ match _ctrl_patch e1 with
          | Some cp =>
              do _r <- insert_at_end buffer ev;
              Patch_process_all cp buffer
          | None => ret tt
          end;
      do r <- insert_at_end buffer ev;
      do_ match _pre_patch e1 with
          | Some pp => Patch_process pp buffer r
          | None => ret tt
          end;
      do_ match matched with
          | Some p => Patch_process p buffer r
          | None => fault
          end;
      do_ match _post_patch e1 with
          | Some pp => Patch_process pp buffer r
          | None => ret tt
          end;
      Sanitize_process this_buffer r
  end.

(** *** [Engine::process_event] *)
Definition process_event (e : Engine) (ev : MidiEvent)
  : result (list MidiEvent * Engine) :=
  let run : M unit :=
    do e0 <- get_engine;
    do_ match _current_patch e0 with
        | Some _ => ret tt
        | None =>
            do scene <- lift (match _scenes e0 !! 0 with
                              | Some subs => vector_at subs 0
                              | None => Fault
                              end);
            modify_engine (set_current_patch (Some (patch scene)))
        end;
    do_ process local_buffer ev;
    process_scene_switch local_buffer in
  match run (mkWorld e []) with
  | Ok (_, w) => Ok (local w, eng w)
  | Fault => Fault
  end.

(** *** [Engine::run_cycle]

    [inbound] is what [_backend->input_event] hands over, oldest first;
    the result lists what each turn of the loop passes to
    [_backend->output_events]. *)
Fixpoint run_cycle (inbound : list MidiEvent) (e : Engine)
  : result (list (list MidiEvent) * Engine) :=
  match inbound with
  | [] => Ok ([], e)
  | ev :: rest =>
      let turn : M unit :=
        do_ put_buffer this_buffer [];
        do_ process this_buffer ev;
        process_scene_switch this_buffer in
      match turn (mkWorld e []) with
      | Ok (_, w) =>
          match run_cycle rest (eng w) with
          | Ok (outs, e') => Ok (_buffer (eng w) :: outs, e')
          | Fault => Fault
          end
      | Fault => Fault
      end
  end.

(** ** Notions used to state the properties of a scene switch *)

(** The engine as the callback of [process_scene_switch] leaves it: the
    handler runs only with more than one scene, and acts on the engine
    through the [switch_scene] calls it makes. *)
Definition after_callback (e : Engine) : Engine :=
  if Nat.ltb 1 (size (_scenes e))
  then apply_requests (scene_switch_callback (_new_scene e) (_new_subscene e)) e
  else e.

(** [scene_num] and [subscene_num] as [process_scene_switch] computes them. *)
Definition target_scene (e : Engine) : Z :=
  if bool_decide (_new_scene e ≠ -1) then _new_scene e else _current_scene e.

Definition target_subscene (e : Engine) : Z :=
  if bool_decide (_new_subscene e ≠ -1) then _new_subscene e else 0.

Definition scene_at (e : Engine) (s ss : Z) : result Scene :=
  match _scenes e !! s with
  | Some subs => vector_at subs ss
  | None => Fault
  end.

(** The exit patch of the subscene that is current, if a scene is. *)
Definition previous_exit (e : Engine) : result (option Patch) :=
  if bool_decide (_current_scene e ≠ -1) then
    match scene_at e (_current_scene e) (_current_subscene e) with
    | Ok prev => Ok (exit_patch prev)
    | Fault => Fault
    end
  else Ok None.

(** An optional wrapper patch (pre, post) applied to the events of a range. *)
Definition through (wrapper : option Patch) (l : list MidiEvent) : list MidiEvent :=
  match wrapper with
  | Some pp => patch_process pp l
  | None => l
  end.

(** What the ctrl patch, when one is set, puts at the head of the buffer. *)
Definition ctrl_output (e : Engine) (ev : MidiEvent) : list MidiEvent :=
  match _ctrl_patch e with
  | Some cp => patch_process cp [ev]
  | None => []
  end.

(** The main copy of [ev] after the pre patch, the matched patch [p] and the
    post patch, before sanitize. *)
Definition main_output (e : Engine) (p : Patch) (ev : MidiEvent) : list MidiEvent :=
  through (_post_patch e) (patch_process p (through (_pre_patch e) [ev])).

(** What one dummy event driven through [p], then the post patch, then
    sanitize, leaves behind. *)
Definition dummy_output (e : Engine) (p : option Patch) : result (list MidiEvent) :=
  match p with
  | Some q =>
      Sanitize_units e true (through (_post_patch e) (patch_process q [dummy_ev]))
  | None => Ok []
  end.

(** The engine once a switch to [scene] has been stored and marked done. *)
Definition switched (scene : Scene) (e : Engine) : Engine :=
  set_new_subscene (-1)
    (set_new_scene (-1)
       (set_current_subscene (target_subscene e)
          (set_current_scene (target_scene e)
             (set_current_patch (Some (patch scene)) e)))).

(** ** What may happen between a NoteOn and its NoteOff

    One step of the engine as far as the tracking of key [k] is concerned:
    a scene switch is requested or carried out, the buffer is cleared, or an
    event other than a NoteOff with key [k] is processed. *)
Inductive engine_step (k : Z * Z * Z) : Engine -> Engine -> Prop :=
  | step_switch_scene (e : Engine) (s ss : Z) :
      engine_step k e (switch_scene s ss e)
  | step_process_scene_switch (e e' : Engine) (b : BufferRef) (l l' : EventBuffer) :
      process_scene_switch b (mkWorld e l) = Ok (tt, mkWorld e' l') ->
      engine_step k e e'
  | step_process (e e' : Engine) (b : BufferRef) (l l' : EventBuffer) (ev : MidiEvent) :
      ~ (type ev = MIDI_EVENT_NOTEOFF /\ make_notekey ev = k) ->
      process b ev (mkWorld e l) = Ok (tt, mkWorld e' l') ->
      engine_step k e e'
  | step_clear (e : Engine) :
      engine_step k e (set_buffer [] e).

(** ** Concrete engines and events used in the examples *)

Definition engine_idle (backend : option Z) : Engine :=
  mkEngine false backend ∅ None (-1) (-1) (-1) (-1) ∅ ∅ [] None None None.

Definition ctrl_volume_100 : MidiEvent :=
  mkMidiEvent MIDI_EVENT_CTRL 0 0 0 0 7 100 None.

Definition aftertouch_90 : MidiEvent :=
  mkMidiEvent MIDI_EVENT_AFTERTOUCH 0 0 0 0 0 90 None.

Definition pitchbend_20000 : MidiEvent :=
  mkMidiEvent MIDI_EVENT_PITCHBEND 0 0 0 0 0 20000 None.

Definition noteon_velocity_0 : MidiEvent :=
  mkMidiEvent MIDI_EVENT_NOTEON 0 9 60 0 0 0 None.

Definition note_on_60 : MidiEvent :=
  mkMidiEvent MIDI_EVENT_NOTEON 0 0 60 100 0 0 None.

Definition note_off_60 : MidiEvent :=
  mkMidiEvent MIDI_EVENT_NOTEOFF 0 0 60 0 0 0 None.

Definition ctrl_event (param value : Z) : MidiEvent :=
  mkMidiEvent MIDI_EVENT_CTRL 0 0 0 0 param value None.

(** A small unit library: patch 7 moves every event to channel 16, patch 10
    answers each event with controller 120 (all sound off), patch 11 with
    controller 121 (reset controllers); every other patch passes its events
    on. *)
Definition example_patch_process (p : Patch) (l : list MidiEvent) : list MidiEvent :=
  match p with
  | 7%nat => map (set_channel 16) l
  | 10%nat => map (fun _ => ctrl_event 120 0) l
  | 11%nat => map (fun _ => ctrl_event 121 0) l
  | _ => l
  end.

(** The engine a run of the dispatcher monad ends in, [e] when it faults. *)
Definition engine_of (r : result (unit * World)) (e : Engine) : Engine :=
  match r with
  | Ok (_, w) => eng w
  | Fault => e
  end.

(** A scene-switch handler that requests nothing. *)
Definition no_callback (scene subscene : Z) : list (Z * Z) := [].

(** Scenes 1 and 2 with two subscenes each; the first subscene of scene 1
    has exit patch 10, the first subscene of scene 2 has init patch 11. *)
Definition example_scenes : gmap Z (list Scene) :=
  {[ 1 := [mkScene 1%nat None (Some 10%nat); mkScene 3%nat None None];
     2 := [mkScene 2%nat (Some 11%nat) None; mkScene 4%nat None None] ]}.

(** One output port; scene 1, subscene 0 is current. *)
Definition engine_scene_1 : Engine :=
  mkEngine false (Some 1) example_scenes (Some 1%nat) 1 0 (-1) (-1)
           ∅ ∅ [] None None None.

(** The same with subscene 1 of scene 1 current. *)
Definition engine_scene_1_subscene_1 : Engine :=
  mkEngine false (Some 1) example_scenes (Some 3%nat) 1 1 (-1) (-1)
           ∅ ∅ [] None None None.

(** ** The rest of the engine: registration of scenes, start-up, deferred
    switches *)

Definition set_scenes (m : gmap Z (list Scene)) (e : Engine) : Engine :=
  mkEngine (_verbose e) (_backend e) m (_current_patch e)
           (_current_scene e) (_current_subscene e) (_new_scene e)
           (_new_subscene e) (_noteon_patches e) (_sustain_patches e)
           (_buffer e) (_ctrl_patch e) (_pre_patch e) (_post_patch e).

(** Modelled from the spec: [has_scene] is declared in engine.hh; a scene
    number has a scene when the table has an entry for it. *)
Definition has_scene (e : Engine) (i : Z) : bool :=
  bool_decide (is_Some (_scenes e !! i)).

(** [Engine::add_scene]: a list is created for a number that has none, and
    the new subscene goes to the end of the list of its number. *)
Definition add_scene (i : Z) (p : Patch) (init exit : option Patch) (e : Engine) : Engine :=
  let scenes1 :=
    if has_scene e i then _scenes e else <[i := []]> (_scenes e) in
  set_scenes
    (<[i := default [] (scenes1 !! i) ++ [mkScene p init exit]]> scenes1) e.

(** Modelled from the spec: [SceneMap] is declared in engine.hh.
    [_scenes.begin()->first] is read as the smallest scene number of the
    table, which is what start-up with scene -1 selects; on an empty table
    [begin()] is the end iterator. *)
Definition first_scene (e : Engine) : result Z :=
  match (map_to_list (_scenes e)).*1 with
  | [] => Fault
  | i :: rest => Ok (foldr Z.min i rest)
  end.

(** [Engine::run_init], with what it hands to
    [_backend->output_events]. *)
Definition run_init (initial_scene initial_subscene : Z) (e : Engine)
  : result (list MidiEvent * Engine) :=
  match (if initial_scene =? -1 then first_scene e else Ok initial_scene) with
  | Fault => Fault
  | Ok scene =>
      if has_scene e scene then
        let run : M unit :=
          do_ put_buffer this_buffer [];
          do_ modify_engine (fun e1 => set_new_subscene initial_subscene
                                         (set_new_scene scene e1));
          process_scene_switch this_buffer in
        match run (mkWorld e []) with
        | Ok (_, w) => Ok (_buffer (eng w), eng w)
        | Fault => Fault
        end
      else Fault
  end.

(** [Engine::run_async]: [None] when nothing is handed to the backend. *)
Definition run_async (e : Engine) : result (option (list MidiEvent) * Engine) :=
  match _backend e with
  | None => Ok (None, e)
  | Some _ =>
      if negb (_new_scene e =? -1) || negb (_new_subscene e =? -1) then
        let run : M unit :=
          do_ put_buffer this_buffer [];
          process_scene_switch this_buffer in
        match run (mkWorld e []) with
        | Ok (_, w) => Ok (Some (_buffer (eng w)), eng w)
        | Fault => Fault
        end
      else Ok (None, e)
  end.

(** ** Notions used to state the further properties *)

(** One step of the engine as far as the sustain pedal with key [k] is
    concerned: anything but the processing of a release (controller 64,
    value 0) with key [k]. *)
Inductive sustain_step (k : Z * Z) : Engine -> Engine -> Prop :=
  | sustain_step_switch_scene (e : Engine) (s ss : Z) :
      sustain_step k e (switch_scene s ss e)
  | sustain_step_process_scene_switch (e e' : Engine) (b : BufferRef)
      (l l' : EventBuffer) :
      process_scene_switch b (mkWorld e l) = Ok (tt, mkWorld e' l') ->
      sustain_step k e e'
  | sustain_step_process (e e' : Engine) (b : BufferRef) (l l' : EventBuffer)
      (ev : MidiEvent) :
      ~ (type ev = MIDI_EVENT_CTRL /\ ctrl_param ev = 64 /\ ctrl_value ev = 0
         /\ make_sustainkey ev = k) ->
      process b ev (mkWorld e l) = Ok (tt, mkWorld e' l') ->
      sustain_step k e e'
  | sustain_step_clear (e : Engine) :
      sustain_step k e (set_buffer [] e).

(** The current patch is the patch of the current subscene, once a scene is
    current. *)
Definition current_consistent (e : Engine) : Prop :=
  _current_scene e = -1
  \/ exists scene, scene_at e (_current_scene e) (_current_subscene e) = Ok scene
                   /\ _current_patch e = Some (patch scene).

(** Events that [get_matching_patch] tracks: the note events, and controller
    64 at value 127 or 0. *)
Definition tracked (ev : MidiEvent) : bool :=
  bool_decide (type ev = MIDI_EVENT_NOTEON)
  || bool_decide (type ev = MIDI_EVENT_NOTEOFF)
  || (bool_decide (type ev = MIDI_EVENT_CTRL) && (ctrl_param ev =? 64)
      && ((ctrl_value ev =? 127) || (ctrl_value ev =? 0))).

(** An engine without scenes, as the constructor leaves it, with one output
    port. *)
Definition engine_fresh : Engine :=
  mkEngine false (Some 1) ∅ None (-1) (-1) (-1) (-1) ∅ ∅ [] None None None.

Definition sustain_down : MidiEvent :=
  mkMidiEvent MIDI_EVENT_CTRL 0 0 0 0 64 127 None.

Definition sustain_up : MidiEvent :=
  mkMidiEvent MIDI_EVENT_CTRL 0 0 0 0 64 0 None.

Definition sustain_half : MidiEvent :=
  mkMidiEvent MIDI_EVENT_CTRL 0 0 0 0 64 70 None.

(** A SysEx message of three bytes, F0 7E F7. *)
Definition sysex_event : MidiEvent :=
  mkMidiEvent MIDI_EVENT_SYSEX 0 0 0 0 0 0
              (Some [Byte.xf0; Byte.x7e; Byte.xf7]).

(** The example scenes registered, nothing current yet. *)
Definition engine_unstarted : Engine :=
  mkEngine false (Some 1) example_scenes None (-1) (-1) (-1) (-1)
           ∅ ∅ [] None None None.

(** The world a run of the dispatcher monad ends in, [w] when it faults. *)
Definition world_of (r : result (unit * World)) (w : World) : World :=
  match r with
  | Ok (_, w1) => w1
  | Fault => w
  end.

(** The engine a cycle ends in, [e] when it faults. *)
Definition cycle_engine_of (r : result (list (list MidiEvent) * Engine)) (e : Engine)
  : Engine :=
  match r with
  | Ok (_, e1) => e1
  | Fault => e
  end.

(** * Properties of [sanitize_event] *)

Lemma port_test_valid (e : Engine) (ev : MidiEvent) :
  0 <= port ev ->
  (forall n, _backend e = Some n -> port ev < n) ->
  (port ev <? 0)
  || match _backend e with Some n => n <=? port ev | None => false end = false.
Proof.
  intros Hlo Hhi. apply orb_false_iff. split; [lia|].
  destruct (_backend e) as [n|] eqn:Hb; [|reflexivity].
  specialize (Hhi n eq_refl). lia.
Qed.

Lemma channel_test_valid (ev : MidiEvent) :
  0 <= channel ev <= 15 ->
  (channel ev <? 0) || (15 <? channel ev) = false.
Proof. intros H. apply orb_false_iff. lia. Qed.

Lemma clamp_between (lo hi v : Z) :
  lo <= hi -> lo <= Z.max lo (Z.min hi v) <= hi.
Proof. lia. Qed.

(** What the branches for Control and Aftertouch compute: the value written
    to [ctrl.value] is the clamp of [note.velocity]. *)
Lemma sanitize_event_ctrl (e : Engine) (ev : MidiEvent) :
  type ev = MIDI_EVENT_CTRL ->
  0 <= port ev -> (forall n, _backend e = Some n -> port ev < n) ->
  0 <= channel ev <= 15 ->
  0 <= ctrl_param ev <= 127 ->
  sanitize_event e ev
  = Ok (true, set_ctrl_value (Z.max 0 (Z.min 127 (note_velocity ev))) ev).
Proof.
  intros Ht Hp Hb Hc Hpar. unfold sanitize_event.
  rewrite port_test_valid, channel_test_valid, Ht by assumption.
  replace ((ctrl_param ev <? 0) || (127 <? ctrl_param ev)) with false; [done|].
  symmetry. apply orb_false_iff. lia.
Qed.

Lemma sanitize_event_aftertouch (e : Engine) (ev : MidiEvent) :
  type ev = MIDI_EVENT_AFTERTOUCH ->
  0 <= port ev -> (forall n, _backend e = Some n -> port ev < n) ->
  0 <= channel ev <= 15 ->
  sanitize_event e ev
  = Ok (true, set_ctrl_value (Z.max 0 (Z.min 127 (note_velocity ev))) ev).
Proof.
  intros Ht Hp Hb Hc. unfold sanitize_event.
  by rewrite port_test_valid, channel_test_valid, Ht.
Qed.

(** When the two member paths hold the same number, the clamp is that of the
    control value. *)
Lemma sanitize_event_ctrl_same_storage (e : Engine) (ev : MidiEvent) :
  type ev = MIDI_EVENT_CTRL ->
  note_velocity ev = ctrl_value ev ->
  0 <= port ev -> (forall n, _backend e = Some n -> port ev < n) ->
  0 <= channel ev <= 15 ->
  0 <= ctrl_param ev <= 127 ->
  sanitize_event e ev
  = Ok (true, set_ctrl_value (Z.max 0 (Z.min 127 (ctrl_value ev))) ev).
Proof.
  intros Ht Heq Hp Hb Hc Hpar. rewrite <- Heq. by apply sanitize_event_ctrl.
Qed.



(** C9.  A NoteOn event with a valid port, channel and note number is kept
    and stays a NoteOn, its velocity clamped to 0..127.  The test
    [velocity < 0] that follows the clamp never holds, whatever the velocity
    was, so the drop behind it is not taken; velocity 0 is kept as well. *)
Theorem sanitize_event_noteon_kept (e : Engine) (ev : MidiEvent) :
  type ev = MIDI_EVENT_NOTEON ->
  0 <= port ev -> (forall n, _backend e = Some n -> port ev < n) ->
  0 <= channel ev <= 15 ->
  0 <= note_note ev <= 127 ->
  (note_velocity (set_note_velocity (Z.max 0 (Z.min 127 (note_velocity ev))) ev) <? 0)
  = false
  /\ sanitize_event e ev
     = Ok (true, set_note_velocity (Z.max 0 (Z.min 127 (note_velocity ev))) ev)
  /\ type (set_note_velocity (Z.max 0 (Z.min 127 (note_velocity ev))) ev)
     = MIDI_EVENT_NOTEON
  /\ (note_velocity ev = 0 -> sanitize_event e ev = Ok (true, ev)).
Proof.
  intros Ht Hp Hb Hc Hn.
  assert (Hneg : (note_velocity
            (set_note_velocity (Z.max 0 (Z.min 127 (note_velocity ev))) ev) <? 0)
          = false) by (simpl; lia).
  assert (Hrun : sanitize_event e ev
    = Ok (true, set_note_velocity (Z.max 0 (Z.min 127 (note_velocity ev))) ev)).
  { unfold sanitize_event.
    rewrite port_test_valid, channel_test_valid, Ht by assumption.
    replace ((note_note ev <? 0) || (127 <? note_note ev)) with false
      by (symmetry; apply orb_false_iff; lia).
    cbv zeta. rewrite Hneg, andb_false_r. reflexivity. }
  split; [exact Hneg|]. split; [exact Hrun|]. split; [exact Ht|].
  intros H0. rewrite Hrun, H0. destruct ev; simpl in *. by subst.
Qed.

(** * Properties of [get_matching_patch] *)

Lemma map_insert_pair_fresh `{Countable K} {V : Type} (k : K) (v : V) (m : gmap K V) :
  m !! k = None -> map_insert_pair k v m !! k = Some v.
Proof. intros Hk. unfold map_insert_pair. rewrite Hk. apply lookup_insert_eq. Qed.

Lemma map_insert_pair_present `{Countable K} {V : Type} (k : K) (v x : V) (m : gmap K V) :
  m !! k = Some x -> map_insert_pair k v m = m.
Proof. intros Hk. unfold map_insert_pair. by rewrite Hk. Qed.

Lemma map_insert_pair_keeps `{Countable K} {V : Type} (k k' : K) (v x : V) (m : gmap K V) :
  m !! k' = Some x -> map_insert_pair k v m !! k' = Some x.
Proof.
  intros Hk'. unfold map_insert_pair.
  destruct (m !! k) eqn:Hk; [done|].
  rewrite lookup_insert_ne; [done|]. intros ->. congruence.
Qed.

Lemma get_matching_patch_noteon (e : Engine) (ev : MidiEvent) :
  type ev = MIDI_EVENT_NOTEON ->
  get_matching_patch e ev
  = (_current_patch e,
     set_noteon_patches
       (map_insert_pair (make_notekey ev) (_current_patch e) (_noteon_patches e)) e).
Proof. intros Ht. unfold get_matching_patch. by rewrite Ht. Qed.

Lemma get_matching_patch_noteoff (e : Engine) (ev : MidiEvent) :
  type ev = MIDI_EVENT_NOTEOFF ->
  get_matching_patch e ev
  = match _noteon_patches e !! make_notekey ev with
    | Some p => (p, set_noteon_patches (delete (make_notekey ev) (_noteon_patches e)) e)
    | None => (_current_patch e, e)
    end.
Proof. intros Ht. unfold get_matching_patch. by rewrite Ht. Qed.

(** Only a NoteOff with key [k] takes the entry of [k] away. *)
Lemma get_matching_patch_keeps_entry (e : Engine) (ev : MidiEvent)
    (k : Z * Z * Z) (p : option Patch) :
  ~ (type ev = MIDI_EVENT_NOTEOFF /\ make_notekey ev = k) ->
  _noteon_patches e !! k = Some p ->
  _noteon_patches (get_matching_patch e ev).2 !! k = Some p.
Proof.
  intros Hev Hk. unfold get_matching_patch.
  repeat case_bool_decide; simpl.
  - by apply map_insert_pair_keeps.
  - destruct (_noteon_patches e !! make_notekey ev) eqn:Hq; simpl; [|done].
    rewrite lookup_delete_ne; [done|]. intros Heq. apply Hev. by split.
  - do 2 (destruct (_ =? _); simpl; try done).
    destruct (_ =? _); simpl; [|done].
    by destruct (_sustain_patches e !! make_sustainkey ev).
  - done.
Qed.

(** No event changes anything but the two tracking tables. *)
Lemma get_matching_patch_frame (e : Engine) (ev : MidiEvent) :
  let e1 := (get_matching_patch e ev).2 in
  _verbose e1 = _verbose e /\ _backend e1 = _backend e
  /\ _scenes e1 = _scenes e /\ _current_patch e1 = _current_patch e
  /\ _current_scene e1 = _current_scene e
  /\ _current_subscene e1 = _current_subscene e
  /\ _new_scene e1 = _new_scene e /\ _new_subscene e1 = _new_subscene e
  /\ _buffer e1 = _buffer e /\ _ctrl_patch e1 = _ctrl_patch e
  /\ _pre_patch e1 = _pre_patch e /\ _post_patch e1 = _post_patch e.
Proof.
  unfold get_matching_patch.
  repeat case_bool_decide; simpl;
    repeat match goal with
           | |- context [if ?b then _ else _] => destruct b; simpl
           | |- context [match ?m !! ?k with _ => _ end] => destruct (m !! k); simpl
           end; tauto.
Qed.

(** C7.  A NoteOff whose key has no entry in the note-on table is routed
    through [_current_patch] and leaves the engine, both tracking tables
    included, as it was.  No NoteOff, matched or not, adds an entry to the
    note-on table or touches the sustain table. *)
Theorem get_matching_patch_noteoff_unmatched (e : Engine) (ev : MidiEvent) :
  type ev = MIDI_EVENT_NOTEOFF ->
  (_noteon_patches e !! make_notekey ev = None ->
   get_matching_patch e ev = (_current_patch e, e))
  /\ (forall k, _noteon_patches e !! k = None ->
                _noteon_patches (get_matching_patch e ev).2 !! k = None)
  /\ _sustain_patches (get_matching_patch e ev).2 = _sustain_patches e.
Proof.
  intros Ht. rewrite get_matching_patch_noteoff by exact Ht.
  split; [|split].
  - intros Hnone. by rewrite Hnone.
  - intros k Hk. destruct (_noteon_patches e !! make_notekey ev); simpl; [|done].
    destruct (decide (make_notekey ev = k)) as [->|Hne].
    + apply lookup_delete_eq.
    + by rewrite lookup_delete_ne.
  - by destruct (_noteon_patches e !! make_notekey ev).
Qed.

(** * Running the dispatcher monad *)

Lemma bind_Ok_inv {A B : Type} (m : M A) (k : A -> M B) (w : World) (r : B * World) :
  bind m k w = Ok r -> exists a w1, m w = Ok (a, w1) /\ k a w1 = Ok r.
Proof.
  unfold bind. destruct (m w) as [[a w1]|]; [|discriminate]. eauto.
Qed.

Lemma lift_Ok_inv {A : Type} (r : result A) (w w' : World) (a : A) :
  lift r w = Ok (a, w') -> r = Ok a /\ w' = w.
Proof. unfold lift. destruct r; intros [= -> ->]; done. Qed.

Lemma buffer_of_with_buffer (b : BufferRef) (l : EventBuffer) (w : World) :
  buffer_of b (with_buffer b l w) = l.
Proof. by destruct b. Qed.

Lemma with_buffer_twice (b : BufferRef) (l1 l2 : EventBuffer) (w : World) :
  with_buffer b l2 (with_buffer b l1 w) = with_buffer b l2 w.
Proof. by destruct b. Qed.

Lemma insert_at_end_run (b : BufferRef) (ev : MidiEvent) (w : World) :
  insert_at_end b ev w
  = Ok (mkRange b (length (buffer_of b w)), with_buffer b (buffer_of b w ++ [ev]) w).
Proof. reflexivity. Qed.

Lemma Patch_process_run (p : Patch) (b : BufferRef) (n : nat) (w : World) :
  Patch_process p b (mkRange b n) w
  = Ok (tt, with_buffer b (take n (buffer_of b w)
                           ++ patch_process p (drop n (buffer_of b w))) w).
Proof.
  unfold Patch_process. simpl. by rewrite bool_decide_eq_true_2.
Qed.

Lemma through_run (post : option Patch) (b : BufferRef) (n : nat) (w : World) :
  match post with
  | Some pp => Patch_process pp b (mkRange b n)
  | None => ret tt
  end w
  = Ok (tt, with_buffer b (take n (buffer_of b w)
                           ++ through post (drop n (buffer_of b w))) w).
Proof.
  destruct post as [pp|]; simpl.
  - apply Patch_process_run.
  - unfold ret. rewrite take_drop. by destruct b, w as [[] ?].
Qed.

(** [sanitize_event] reads the engine through [_verbose] and [_backend]
    only. *)
Lemma sanitize_event_ext (e e' : Engine) (ev : MidiEvent) :
  _verbose e = _verbose e' -> _backend e = _backend e' ->
  sanitize_event e ev = sanitize_event e' ev.
Proof. intros Hv Hb. unfold sanitize_event. by rewrite Hv, Hb. Qed.

Lemma Sanitize_units_ext (e e' : Engine) (ok : bool) (l : list MidiEvent) :
  _verbose e = _verbose e' -> _backend e = _backend e' ->
  Sanitize_units e ok l = Sanitize_units e' ok l.
Proof.
  intros Hv Hb. induction l as [|ev l IH]; simpl; [done|].
  by rewrite (sanitize_event_ext e e' ev Hv Hb), IH.
Qed.

Lemma Sanitize_process_run (b b' : BufferRef) (n : nat) (w : World) :
  Sanitize_process b (mkRange b' n) w
  = match Sanitize_units (eng w) (bool_decide (b' = b)) (drop n (buffer_of b' w)) with
    | Ok k => Ok (tt, with_buffer b' (take n (buffer_of b' w) ++ k) w)
    | Fault => Fault
    end.
Proof.
  unfold Sanitize_process, bind, get_engine, get_buffer, lift, put_buffer. simpl.
  by destruct (Sanitize_units _ _ _).
Qed.

Lemma eng_with_buffer_verbose (b : BufferRef) (l : EventBuffer) (w : World) :
  _verbose (eng (with_buffer b l w)) = _verbose (eng w).
Proof. by destruct b. Qed.

Lemma eng_with_buffer_backend (b : BufferRef) (l : EventBuffer) (w : World) :
  _backend (eng (with_buffer b l w)) = _backend (eng w).
Proof. by destruct b. Qed.

(** The block that [process_scene_switch] writes out twice: a dummy event
    appended, sent through [q], the post patch and sanitize. *)
Lemma dummy_block_run (b : BufferRef) (q : Patch) (post : option Patch) (w : World) :
  (do r <- insert_at_end b dummy_ev;
   do_ Patch_process q b r;
   do_ match post with
       | Some pp => Patch_process pp b r
       | None => ret tt
       end;
   Sanitize_process b r) w
  = match Sanitize_units (eng w) true (through post (patch_process q [dummy_ev])) with
    | Ok k => Ok (tt, with_buffer b (buffer_of b w ++ k) w)
    | Fault => Fault
    end.
Proof.
  unfold bind at 1. rewrite insert_at_end_run.
  unfold bind at 1. rewrite Patch_process_run.
  unfold bind at 1. rewrite through_run.
  rewrite Sanitize_process_run.
  rewrite !buffer_of_with_buffer, !with_buffer_twice.
  rewrite take_app_length, drop_app_length.
  rewrite take_app_length, drop_app_length.
  rewrite take_app_length, drop_app_length.
  rewrite bool_decide_eq_true_2 by done.
  rewrite (Sanitize_units_ext _ (eng w));
    [|apply eng_with_buffer_verbose|apply eng_with_buffer_backend].
  destruct (Sanitize_units _ _ _); [|done].
  by rewrite with_buffer_twice.
Qed.

(** * Properties of [switch_scene] and [process_scene_switch] *)

(** [switch_scene] writes the two pending fields and nothing else. *)
Lemma switch_scene_frame (s ss : Z) (e : Engine) :
  let e1 := switch_scene s ss e in
  _verbose e1 = _verbose e /\ _backend e1 = _backend e
  /\ _scenes e1 = _scenes e /\ _current_patch e1 = _current_patch e
  /\ _current_scene e1 = _current_scene e
  /\ _current_subscene e1 = _current_subscene e
  /\ _noteon_patches e1 = _noteon_patches e
  /\ _sustain_patches e1 = _sustain_patches e
  /\ _buffer e1 = _buffer e /\ _ctrl_patch e1 = _ctrl_patch e
  /\ _pre_patch e1 = _pre_patch e /\ _post_patch e1 = _post_patch e.
Proof. unfold switch_scene. repeat case_bool_decide; simpl; tauto. Qed.

Lemma apply_requests_frame (reqs : list (Z * Z)) (e : Engine) :
  let e1 := apply_requests reqs e in
  _verbose e1 = _verbose e /\ _backend e1 = _backend e
  /\ _scenes e1 = _scenes e /\ _current_patch e1 = _current_patch e
  /\ _current_scene e1 = _current_scene e
  /\ _current_subscene e1 = _current_subscene e
  /\ _noteon_patches e1 = _noteon_patches e
  /\ _sustain_patches e1 = _sustain_patches e
  /\ _buffer e1 = _buffer e /\ _ctrl_patch e1 = _ctrl_patch e
  /\ _pre_patch e1 = _pre_patch e /\ _post_patch e1 = _post_patch e.
Proof.
  revert e. induction reqs as [|[s ss] reqs IH]; intros e; [simpl; tauto|].
  change (apply_requests ((s, ss) :: reqs) e)
    with (apply_requests reqs (switch_scene s ss e)).
  specialize (IH (switch_scene s ss e)).
  pose proof (switch_scene_frame s ss e) as Hs.
  cbv zeta in *.
  repeat match goal with H : _ /\ _ |- _ => destruct H end.
  repeat split; congruence.
Qed.

Lemma after_callback_frame (e : Engine) :
  let e1 := after_callback e in
  _verbose e1 = _verbose e /\ _backend e1 = _backend e
  /\ _scenes e1 = _scenes e /\ _current_patch e1 = _current_patch e
  /\ _current_scene e1 = _current_scene e
  /\ _current_subscene e1 = _current_subscene e
  /\ _noteon_patches e1 = _noteon_patches e
  /\ _sustain_patches e1 = _sustain_patches e
  /\ _buffer e1 = _buffer e /\ _ctrl_patch e1 = _ctrl_patch e
  /\ _pre_patch e1 = _pre_patch e /\ _post_patch e1 = _post_patch e.
Proof.
  unfold after_callback. destruct (Nat.ltb _ _); [apply apply_requests_frame|].
  simpl. tauto.
Qed.

Lemma process_scene_switch_idle (b : BufferRef) (w : World) :
  _new_scene (eng w) = -1 -> _new_subscene (eng w) = -1 ->
  process_scene_switch b w = Ok (tt, w).
Proof.
  intros Hs Hss. unfold process_scene_switch, bind, get_engine.
  by rewrite Hs, Hss.
Qed.

(** Past the test for a pending request and past the callback, the function
    goes on from the engine that [after_callback] describes. *)
Lemma process_scene_switch_pending (b : BufferRef) (w : World) :
  ~ (_new_scene (eng w) = -1 /\ _new_subscene (eng w) = -1) ->
  process_scene_switch b w
  = (let e := after_callback (eng w) in
     do_ match _scenes e !! target_scene e with
         | Some subs =>
             if Z.of_nat (length subs) >? target_subscene e then
               do scene <- lift (vector_at subs (target_subscene e));
               do_ (if bool_decide (_current_scene e ≠ -1) then
                      do prev_scene <-
                        lift (match _scenes e !! _current_scene e with
                              | Some ps => vector_at ps (_current_subscene e)
                              | None => Fault
                              end);
                      match exit_patch prev_scene with
                      | Some xp =>
                          do r <- insert_at_end b dummy_ev;
                          do_ Patch_process xp b r;
                          do_ match _post_patch e with
                              | Some pp => Patch_process pp b r
                              | None => ret tt
                              end;
                          Sanitize_process b r
                      | None => ret tt
                      end
                    else ret tt);
               do_ match init_patch scene with
                   | Some ip =>
                       do r <- insert_at_end b dummy_ev;
                       do_ Patch_process ip b r;
                       do_ match _post_patch e with
                           | Some pp => Patch_process pp b r
                           | None => ret tt
                           end;
                       Sanitize_process b r
                   | None => ret tt
                   end;
               modify_engine
                 (fun e1 => set_current_subscene (target_subscene e)
                              (set_current_scene (target_scene e)
                                 (set_current_patch (Some (patch scene)) e1)))
             else ret tt
         | None => ret tt
         end;
     modify_engine (fun e1 => set_new_subscene (-1) (set_new_scene (-1) e1)))
      (mkWorld (after_callback (eng w)) (local w)).
Proof.
  destruct w as [e0 l0]. simpl. intros Hpend. unfold process_scene_switch.
  unfold bind at 1. unfold get_engine at 1. cbn beta iota delta [eng local].
  replace ((_new_scene e0 =? -1) && (_new_subscene e0 =? -1)) with false.
  2:{ symmetry. apply andb_false_iff.
      destruct (Z.eqb_spec (_new_scene e0) (-1)); [|by left].
      destruct (Z.eqb_spec (_new_subscene e0) (-1)); [|by right].
      exfalso. by apply Hpend. }
  unfold bind at 1. unfold after_callback.
  destruct (Nat.ltb 1 (size (_scenes e0))); reflexivity.
Qed.

(** A target that is not in the table, or a subscene index at or past the
    end of the scene's list: the current scene, subscene and patch and the
    buffer stay, the request is marked done. *)
Lemma process_scene_switch_invalid (b : BufferRef) (w : World) :
  let e := after_callback (eng w) in
  ~ (_new_scene (eng w) = -1 /\ _new_subscene (eng w) = -1) ->
  match _scenes e !! target_scene e with
  | Some subs => Z.of_nat (length subs) <= target_subscene e
  | None => True
  end ->
  process_scene_switch b w
  = Ok (tt, mkWorld (set_new_subscene (-1) (set_new_scene (-1) e)) (local w)).
Proof.
  intros e Hpend Htarget. rewrite process_scene_switch_pending by exact Hpend.
  fold e. cbv zeta. unfold bind at 1.
  destruct (_scenes e !! target_scene e) as [subs|]; [|reflexivity].
  replace (Z.of_nat (length subs) >? target_subscene e) with false by lia.
  reflexivity.
Qed.

(** A target whose scene is in the table and whose subscene index is below
    the length of the scene's list: the run is decided by the indexing of the
    list, by the lookup of the subscene that is still current, and by the
    two passes of a dummy event. *)
Lemma process_scene_switch_in_range (b : BufferRef) (w : World) (subs : list Scene) :
  let e := after_callback (eng w) in
  ~ (_new_scene (eng w) = -1 /\ _new_subscene (eng w) = -1) ->
  _scenes e !! target_scene e = Some subs ->
  target_subscene e < Z.of_nat (length subs) ->
  process_scene_switch b w
  = match vector_at subs (target_subscene e) with
    | Fault => Fault
    | Ok scene =>
        match previous_exit e with
        | Fault => Fault
        | Ok xp =>
            match dummy_output e xp with
            | Fault => Fault
            | Ok k1 =>
                match dummy_output e (init_patch scene) with
                | Fault => Fault
                | Ok k2 =>
                    Ok (tt, with_buffer b (buffer_of b w ++ k1 ++ k2)
                                        (mkWorld (switched scene e) (local w)))
                end
            end
        end
    end.
Proof.
  intros e Hpend Hsubs Hlen.
  rewrite process_scene_switch_pending by exact Hpend.
  fold e. cbv zeta.
  assert (Hbuf : buffer_of b (mkWorld e (local w)) = buffer_of b w).
  { destruct b; simpl; [|done]. apply (after_callback_frame (eng w)). }
  unfold bind at 1. rewrite Hsubs.
  replace (Z.of_nat (length subs) >? target_subscene e) with true by lia.
  unfold bind at 1. unfold lift at 1.
  destruct (vector_at subs (target_subscene e)) as [scene|]; [|reflexivity].
  (* the exit patch of the subscene that is still current *)
  assert (Hexit :
    (if bool_decide (_current_scene e ≠ -1) then
       do prev_scene <-
         lift (match _scenes e !! _current_scene e with
               | Some ps => vector_at ps (_current_subscene e)
               | None => Fault
               end);
       match exit_patch prev_scene with
       | Some xp0 =>
           do r <- insert_at_end b dummy_ev;
           do_ Patch_process xp0 b r;
           do_ match _post_patch e with
               | Some pp => Patch_process pp b r
               | None => ret tt
               end;
           Sanitize_process b r
       | None => ret tt
       end
     else ret tt) (mkWorld e (local w))
    = match previous_exit e with
      | Fault => Fault
      | Ok xp =>
          match dummy_output e xp with
          | Fault => Fault
          | Ok k1 => Ok (tt, with_buffer b (buffer_of b w ++ k1) (mkWorld e (local w)))
          end
      end).
  { unfold previous_exit, scene_at.
    assert (Hnil : Ok (tt, mkWorld e (local w))
      = Ok (tt, with_buffer b (buffer_of b w ++ []) (mkWorld e (local w)))).
    { rewrite app_nil_r, <- Hbuf. by destruct b, e. }
    destruct (bool_decide (_current_scene e ≠ -1)); [|exact Hnil].
    unfold bind at 1. unfold lift at 1.
    destruct (match _scenes e !! _current_scene e with
              | Some ps => vector_at ps (_current_subscene e)
              | None => Fault
              end) as [prev|]; [|reflexivity].
    destruct (exit_patch prev) as [q|]; simpl; [|exact Hnil].
    rewrite dummy_block_run. simpl eng. by rewrite Hbuf. }
  unfold bind at 1. rewrite Hexit.
  destruct (previous_exit e) as [xp|]; [|reflexivity].
  destruct (dummy_output e xp) as [k1|]; [|reflexivity].
  (* the init patch of the target *)
  unfold bind at 1.
  assert (Hinit :
    match init_patch scene with
    | Some ip =>
        do r <- insert_at_end b dummy_ev;
        do_ Patch_process ip b r;
        do_ match _post_patch e with
            | Some pp => Patch_process pp b r
            | None => ret tt
            end;
        Sanitize_process b r
    | None => ret tt
    end (with_buffer b (buffer_of b w ++ k1) (mkWorld e (local w)))
    = match dummy_output e (init_patch scene) with
      | Fault => Fault
      | Ok k2 =>
          Ok (tt, with_buffer b (buffer_of b w ++ k1 ++ k2) (mkWorld e (local w)))
      end).
  { destruct (init_patch scene) as [q|]; simpl.
    - rewrite dummy_block_run.
      rewrite (Sanitize_units_ext _ e);
        [|apply eng_with_buffer_verbose|apply eng_with_buffer_backend].
      destruct (Sanitize_units e true _) as [k2|]; [|reflexivity].
      by rewrite buffer_of_with_buffer, with_buffer_twice, <- app_assoc.
    - by rewrite app_nil_r. }
  rewrite Hinit.
  destruct (dummy_output e (init_patch scene)) as [k2|]; [|reflexivity].
  by destruct b.
Qed.

(** A target that is in the table: the exit patch of the current subscene
    and the init patch of the target each see one dummy event, their output
    is appended in that order, and the target becomes current. *)
Lemma process_scene_switch_valid (b : BufferRef) (w : World)
    (subs : list Scene) (scene : Scene) (xp : option Patch)
    (k1 k2 : list MidiEvent) :
  let e := after_callback (eng w) in
  ~ (_new_scene (eng w) = -1 /\ _new_subscene (eng w) = -1) ->
  _scenes e !! target_scene e = Some subs ->
  0 <= target_subscene e ->
  subs !! Z.to_nat (target_subscene e) = Some scene ->
  previous_exit e = Ok xp ->
  dummy_output e xp = Ok k1 ->
  dummy_output e (init_patch scene) = Ok k2 ->
  process_scene_switch b w
  = Ok (tt, with_buffer b (buffer_of b w ++ k1 ++ k2)
                        (mkWorld (switched scene e) (local w))).
Proof.
  intros e Hpend Hsubs Hnonneg Hscene Hprev Hk1 Hk2.
  apply lookup_lt_Some in Hscene as Hlen.
  rewrite (process_scene_switch_in_range b w subs) by (done || (fold e; lia)).
  fold e. unfold vector_at.
  replace (target_subscene e <? 0) with false by lia.
  by rewrite Hscene, Hprev, Hk1, Hk2.
Qed.

(** A negative subscene index passes the test against the length of the
    list and is then used to index it. *)
Lemma process_scene_switch_negative_index (b : BufferRef) (w : World)
    (subs : list Scene) :
  let e := after_callback (eng w) in
  ~ (_new_scene (eng w) = -1 /\ _new_subscene (eng w) = -1) ->
  _scenes e !! target_scene e = Some subs ->
  target_subscene e < 0 ->
  process_scene_switch b w = Fault.
Proof.
  intros e Hpend Hsubs Hneg.
  rewrite (process_scene_switch_in_range b w subs) by (done || (fold e; lia)).
  fold e. unfold vector_at.
  by replace (target_subscene e <? 0) with true by lia.
Qed.

(** * What sanitize lets through *)

Lemma sanitize_event_kept_sane (e : Engine) (ev ev1 : MidiEvent) :
  sanitize_event e ev = Ok (true, ev1) -> sane (_backend e) ev1.
Proof.
  unfold sanitize_event, sane, passes_sanitize, valid_port, valid_channel,
    kind_check, clamped.
  destruct ((port ev <? 0) || _) eqn:Hport.
  { destruct (_verbose e), (_backend e); discriminate. }
  destruct ((channel ev <? 0) || (15 <? channel ev)) eqn:Hch; [discriminate|].
  destruct (_backend e) as [n|];
    destruct (type ev) eqn:Ht; cbv zeta;
    repeat match goal with
           | |- context [if ?c then _ else _] => destruct c eqn:?
           | |- context [match sysex ev with _ => _ end] => destruct (sysex ev) eqn:?
           end;
    intros Hrun; simplify_eq; simpl;
    rewrite ?Ht; simpl;
    repeat match goal with
           | H : sysex _ = _ |- _ => rewrite H
           | H : sysex_invalid _ = _ |- _ => rewrite H
           end; simpl; split; lia.
Qed.

Lemma Sanitize_units_sane (e : Engine) (ok : bool) (l k : list MidiEvent) :
  Sanitize_units e ok l = Ok k -> Forall (sane (_backend e)) k.
Proof.
  revert k. induction l as [|ev l IH]; simpl; intros k Hk.
  - injection Hk as <-. constructor.
  - destruct (sanitize_event e ev) as [[[] ev1]|] eqn:Hev; [| |discriminate].
    + destruct (Sanitize_units e ok l) as [k1|]; [|discriminate].
      injection Hk as <-. constructor; [|by apply IH].
      by apply (sanitize_event_kept_sane e ev).
    + destruct ok; [by apply IH|discriminate].
Qed.

Lemma dummy_output_sane (e : Engine) (p : option Patch) (k : list MidiEvent) :
  dummy_output e p = Ok k -> Forall (sane (_backend e)) k.
Proof.
  destruct p as [q|]; simpl.
  - apply Sanitize_units_sane.
  - intros [= <-]. constructor.
Qed.

(** Whatever a scene switch does, it leaves the setup and the tracking
    tables alone, appends to the buffer it was given and to no other, and
    what it appends has passed sanitize. *)
Lemma process_scene_switch_inv (b : BufferRef) (w w' : World) :
  process_scene_switch b w = Ok (tt, w') ->
  same_setup (eng w) (eng w') /\ same_tables (eng w) (eng w')
  /\ buffer_of (other_buffer b) w' = buffer_of (other_buffer b) w
  /\ exists out, buffer_of b w' = buffer_of b w ++ out
                 /\ Forall (sane (_backend (eng w))) out.
Proof.
  intros Hrun.
  pose proof (after_callback_frame (eng w)) as Hcb. cbv zeta in Hcb.
  destruct Hcb as (Hv & Hb & Hs & _ & _ & _ & Hn & Hsu & Hbuf & Hc & Hpre & Hpost).
  destruct (decide (_new_scene (eng w) = -1 /\ _new_subscene (eng w) = -1))
    as [[Hi1 Hi2]|Hpend].
  { rewrite process_scene_switch_idle in Hrun by assumption.
    injection Hrun as <-. repeat split; try done.
    exists []. by rewrite app_nil_r. }
  set (e := after_callback (eng w)) in *.
  assert (Hnoop : process_scene_switch b w
      = Ok (tt, mkWorld (set_new_subscene (-1) (set_new_scene (-1) e)) (local w)) ->
    same_setup (eng w) (eng w') /\ same_tables (eng w) (eng w')
    /\ buffer_of (other_buffer b) w' = buffer_of (other_buffer b) w
    /\ exists out, buffer_of b w' = buffer_of b w ++ out
                   /\ Forall (sane (_backend (eng w))) out).
  { intros Heq. rewrite Heq in Hrun. injection Hrun as <-.
    split; [done|]. split; [done|]. split; [by destruct b|].
    exists []. rewrite app_nil_r. split; [by destruct b|constructor]. }
  destruct (_scenes e !! target_scene e) as [subs|] eqn:Hsubs.
  2:{ apply Hnoop. apply process_scene_switch_invalid; [done|].
      fold e. by rewrite Hsubs. }
  destruct (decide (target_subscene e < Z.of_nat (length subs))) as [Hlt|Hge].
  2:{ apply Hnoop. apply process_scene_switch_invalid; [done|].
      fold e. rewrite Hsubs. lia. }
  rewrite (process_scene_switch_in_range b w subs) in Hrun by done.
  fold e in Hrun.
  destruct (vector_at subs (target_subscene e)) as [scene|]; [|discriminate].
  destruct (previous_exit e) as [xp|]; [|discriminate].
  destruct (dummy_output e xp) as [k1|] eqn:Hk1; [|discriminate].
  destruct (dummy_output e (init_patch scene)) as [k2|] eqn:Hk2; [|discriminate].
  injection Hrun as <-.
  split; [by destruct b|]. split; [by destruct b|]. split; [by destruct b|].
  exists (k1 ++ k2). split; [by destruct b|].
  rewrite <- Hb. apply Forall_app. split; by eapply dummy_output_sane.
Qed.

(** * Properties of [process] *)

(** On an empty buffer [process] is decided by the matched patch and by
    sanitize.  Sanitize may erase only when [buffer] is the member
    [_buffer], the buffer its call names. *)
Lemma process_run (b : BufferRef) (ev : MidiEvent) (w : World) :
  buffer_of b w = [] ->
  process b ev w
  = match (get_matching_patch (eng w) ev).1 with
    | None => Fault
    | Some p =>
        let e1 := (get_matching_patch (eng w) ev).2 in
        match Sanitize_units e1 (bool_decide (b = this_buffer))
                             (main_output e1 p ev) with
        | Ok k => Ok (tt, with_buffer b (ctrl_output e1 ev ++ k)
                                      (mkWorld e1 (local w)))
        | Fault => Fault
        end
    end.
Proof.
  intros Hempty. unfold process.
  unfold bind at 1. unfold get_buffer at 1. rewrite Hempty.
  unfold bind at 1. unfold get_engine at 1.
  pose proof (get_matching_patch_frame (eng w) ev) as Hframe. cbv zeta in Hframe.
  destruct (get_matching_patch (eng w) ev) as [matched e1] eqn:Hgmp.
  simpl in Hframe. simpl fst. simpl snd.
  unfold bind at 1. unfold modify_engine at 1.
  set (w1 := mkWorld e1 (local w)).
  assert (Hb1 : buffer_of b w1 = []).
  { destruct b; simpl; [|exact Hempty].
    simpl in Hempty. rewrite <- Hempty. apply Hframe. }
  unfold bind at 1.
  assert (Hctrl :
    match _ctrl_patch e1 with
    | Some cp => do _r <- insert_at_end b ev; Patch_process_all cp b
    | None => ret tt
    end w1 = Ok (tt, with_buffer b (ctrl_output e1 ev) w1)).
  { unfold ctrl_output. destruct (_ctrl_patch e1) as [cp|].
    - unfold bind at 1. rewrite insert_at_end_run.
      unfold Patch_process_all, bind, get_buffer, put_buffer.
      by rewrite buffer_of_with_buffer, with_buffer_twice, Hb1.
    - unfold ret. rewrite <- Hb1. by destruct b, e1. }
  rewrite Hctrl.
  unfold bind at 1. rewrite insert_at_end_run, buffer_of_with_buffer, with_buffer_twice.
  unfold bind at 1. rewrite through_run, buffer_of_with_buffer, with_buffer_twice.
  rewrite take_app_length, drop_app_length.
  unfold bind at 1.
  destruct matched as [p|]; [|reflexivity].
  rewrite Patch_process_run, buffer_of_with_buffer, with_buffer_twice.
  rewrite take_app_length, drop_app_length.
  unfold bind at 1. rewrite through_run, buffer_of_with_buffer, with_buffer_twice.
  rewrite take_app_length, drop_app_length.
  rewrite Sanitize_process_run, buffer_of_with_buffer.
  rewrite take_app_length, drop_app_length.
  rewrite (Sanitize_units_ext _ e1);
    [|apply eng_with_buffer_verbose|apply eng_with_buffer_backend].
  fold (main_output e1 p ev).
  destruct (Sanitize_units e1 _ _); [|reflexivity].
  by rewrite with_buffer_twice.
Qed.

Lemma process_inv (b : BufferRef) (ev : MidiEvent) (w w' : World) :
  process b ev w = Ok (tt, w') ->
  let e1 := (get_matching_patch (eng w) ev).2 in
  buffer_of b w = []
  /\ exists p k,
       (get_matching_patch (eng w) ev).1 = Some p
       /\ Sanitize_units e1 (bool_decide (b = this_buffer)) (main_output e1 p ev) = Ok k
       /\ w' = with_buffer b (ctrl_output e1 ev ++ k) (mkWorld e1 (local w)).
Proof.
  intros Hrun e1.
  assert (Hempty : buffer_of b w = []).
  { unfold process, bind at 1, get_buffer at 1 in Hrun.
    by destruct (buffer_of b w). }
  split; [exact Hempty|].
  rewrite process_run in Hrun by exact Hempty. fold e1 in Hrun.
  destruct (get_matching_patch (eng w) ev).1 as [p|]; [|discriminate].
  cbv zeta in Hrun.
  destruct (Sanitize_units e1 _ _) as [k|] eqn:Hk; [|discriminate].
  injection Hrun as <-. by exists p, k.
Qed.

(** * Pinning of a NoteOff to the patch of its NoteOn *)

Lemma engine_step_keeps_entry (k : Z * Z * Z) (e e' : Engine) (p : option Patch) :
  engine_step k e e' ->
  _noteon_patches e !! k = Some p -> _noteon_patches e' !! k = Some p.
Proof.
  intros Hstep Hk. destruct Hstep as [e s ss|e e' b l l' Hrun|e e' b l l' ev Hev Hrun|e].
  - pose proof (switch_scene_frame s ss e) as Hf. cbv zeta in Hf.
    destruct Hf as (_ & _ & _ & _ & _ & _ & -> & _). exact Hk.
  - apply process_scene_switch_inv in Hrun as (_ & [Hn _] & _).
    simpl in Hn. by rewrite Hn.
  - apply process_inv in Hrun as (_ & q & out & _ & _ & Hw').
    simpl in Hw'.
    assert (Hn : _noteon_patches e' = _noteon_patches (get_matching_patch e ev).2).
    { destruct b; simpl in Hw'; by injection Hw' as -> _. }
    rewrite Hn. by apply get_matching_patch_keeps_entry.
  - exact Hk.
Qed.

Lemma engine_steps_keep_entry (k : Z * Z * Z) (e e' : Engine) (p : option Patch) :
  rtc (engine_step k) e e' ->
  _noteon_patches e !! k = Some p -> _noteon_patches e' !! k = Some p.
Proof.
  induction 1 as [e|e e1 e2 Hstep _ IH]; [done|].
  intros Hk. apply IH. by apply (engine_step_keeps_entry k e).
Qed.

(** A NoteOn whose key is already in the table leaves the entry as it is
    and is routed through the patch that is current now. *)
Lemma get_matching_patch_noteon_present (e : Engine) (ev : MidiEvent) (p : option Patch) :
  type ev = MIDI_EVENT_NOTEON ->
  _noteon_patches e !! make_notekey ev = Some p ->
  get_matching_patch e ev = (_current_patch e, set_noteon_patches (_noteon_patches e) e).
Proof.
  intros Ht Hk. rewrite get_matching_patch_noteon by exact Ht.
  by rewrite (map_insert_pair_present _ _ p).
Qed.


(** * Output of [process_event] *)

(** With a current patch, no request pending and nothing for sanitize to
    erase, [process_event] returns the output of the ctrl patch followed by
    the sanitized main copy. *)
Lemma process_event_run (e : Engine) (ev : MidiEvent) (q p : Patch)
    (k : list MidiEvent) :
  _current_patch e = Some q ->
  _new_scene e = -1 -> _new_subscene e = -1 ->
  (get_matching_patch e ev).1 = Some p ->
  Sanitize_units (get_matching_patch e ev).2 false
                 (main_output (get_matching_patch e ev).2 p ev) = Ok k ->
  process_event e ev
  = Ok (ctrl_output (get_matching_patch e ev).2 ev ++ k,
        (get_matching_patch e ev).2).
Proof.
  intros Hcur Hns Hnss Hp Hk. unfold process_event.
  unfold bind at 1. unfold get_engine at 1. cbn [eng].
  unfold bind at 1. rewrite Hcur. unfold ret at 1.
  unfold bind at 1. rewrite process_run by reflexivity.
  cbn [eng local]. rewrite Hp. cbv zeta.
  rewrite bool_decide_eq_false_2 by discriminate. rewrite Hk.
  pose proof (get_matching_patch_frame e ev) as Hf. cbv zeta in Hf.
  destruct Hf as (_ & _ & _ & _ & _ & _ & Hn1 & Hn2 & _).
  rewrite process_scene_switch_idle; [reflexivity| |];
    cbn [eng with_buffer]; congruence.
Qed.


(** * Scene switches: order of exit and init, and the axis left at -1 *)

Lemma previous_exit_ext (e e' : Engine) :
  _scenes e' = _scenes e -> _current_scene e' = _current_scene e ->
  _current_subscene e' = _current_subscene e ->
  previous_exit e' = previous_exit e.
Proof. intros Hs Hc Hcs. unfold previous_exit, scene_at. by rewrite Hs, Hc, Hcs. Qed.

Lemma dummy_output_ext (e e' : Engine) (p : option Patch) :
  _verbose e' = _verbose e -> _backend e' = _backend e ->
  _post_patch e' = _post_patch e ->
  dummy_output e' p = dummy_output e p.
Proof.
  intros Hv Hb Hp. unfold dummy_output. destruct p as [q|]; [|done].
  rewrite Hp. by apply Sanitize_units_ext.
Qed.

Lemma switch_scene_set_ctrl_pre (s ss : Z) (c p : option Patch) (e : Engine) :
  switch_scene s ss (set_ctrl_pre c p e) = set_ctrl_pre c p (switch_scene s ss e).
Proof. unfold switch_scene. by repeat case_bool_decide. Qed.

Lemma apply_requests_set_ctrl_pre (reqs : list (Z * Z)) (c p : option Patch) (e : Engine) :
  apply_requests reqs (set_ctrl_pre c p e) = set_ctrl_pre c p (apply_requests reqs e).
Proof.
  revert e. induction reqs as [|[s ss] reqs IH]; intros e; [done|].
  change (apply_requests ((s, ss) :: reqs) (set_ctrl_pre c p e))
    with (apply_requests reqs (switch_scene s ss (set_ctrl_pre c p e))).
  by rewrite switch_scene_set_ctrl_pre, IH.
Qed.

Lemma after_callback_set_ctrl_pre (c p : option Patch) (e : Engine) :
  after_callback (set_ctrl_pre c p e) = set_ctrl_pre c p (after_callback e).
Proof.
  unfold after_callback. simpl. destruct (Nat.ltb _ _); [|done].
  apply apply_requests_set_ctrl_pre.
Qed.

(** C6.  On a switch to a subscene that is in the table, from a subscene
    with an exit patch to one with an init patch, the buffer grows by the
    output of the exit patch followed by the output of the init patch.  Each
    of the two is what one dummy event becomes in its patch, then in the
    post patch when one is set, then in sanitize.  The ctrl patch and the
    pre patch play no part: with any other two in their place the buffer
    grows by the same events. *)
Theorem scene_switch_exit_before_init (b : BufferRef) (w : World)
    (subs : list Scene) (scene prev : Scene) (xp ip : Patch)
    (k1 k2 : list MidiEvent) :
  let e := after_callback (eng w) in
  ~ (_new_scene (eng w) = -1 /\ _new_subscene (eng w) = -1) ->
  _scenes e !! target_scene e = Some subs ->
  0 <= target_subscene e ->
  subs !! Z.to_nat (target_subscene e) = Some scene ->
  _current_scene e ≠ -1 ->
  scene_at e (_current_scene e) (_current_subscene e) = Ok prev ->
  exit_patch prev = Some xp ->
  init_patch scene = Some ip ->
  Sanitize_units e true (through (_post_patch e) (patch_process xp [dummy_ev])) = Ok k1 ->
  Sanitize_units e true (through (_post_patch e) (patch_process ip [dummy_ev])) = Ok k2 ->
  (exists w', process_scene_switch b w = Ok (tt, w')
              /\ buffer_of b w' = buffer_of b w ++ k1 ++ k2)
  /\ (forall c p : option Patch,
        exists w', process_scene_switch b (mkWorld (set_ctrl_pre c p (eng w)) (local w))
                   = Ok (tt, w')
                   /\ buffer_of b w' = buffer_of b w ++ k1 ++ k2).
Proof.
  intros e Hpend Hsubs Hnonneg Hscene Hcur Hprev Hxp Hip Hk1 Hk2.
  assert (Hexit : previous_exit e = Ok (Some xp)).
  { unfold previous_exit. by rewrite bool_decide_eq_true_2, Hprev, Hxp. }
  assert (Hd1 : dummy_output e (Some xp) = Ok k1) by exact Hk1.
  assert (Hd2 : dummy_output e (init_patch scene) = Ok k2) by (by rewrite Hip).
  split.
  - eexists. split.
    + by apply (process_scene_switch_valid b w subs scene (Some xp) k1 k2).
    + by rewrite buffer_of_with_buffer.
  - intros c p.
    pose proof (process_scene_switch_valid b
                  (mkWorld (set_ctrl_pre c p (eng w)) (local w))
                  subs scene (Some xp) k1 k2) as Hrun.
    cbv zeta in Hrun. simpl eng in Hrun.
    rewrite after_callback_set_ctrl_pre in Hrun. fold e in Hrun.
    eexists. split.
    + apply Hrun; try assumption.
      * by rewrite (dummy_output_ext e).
      * by rewrite (dummy_output_ext e).
    + rewrite buffer_of_with_buffer. by destruct b.
Qed.

Lemma switch_scene_scene_only (s : Z) (e : Engine) :
  s ≠ -1 -> switch_scene s (-1) e = set_new_scene s e.
Proof. intros Hs. unfold switch_scene. by repeat case_bool_decide. Qed.

Lemma switch_scene_subscene_only (ss : Z) (e : Engine) :
  ss ≠ -1 -> switch_scene (-1) ss e = set_new_subscene ss e.
Proof. intros Hs. unfold switch_scene. by repeat case_bool_decide. Qed.

Lemma switched_current (scene : Scene) (e : Engine) :
  _current_scene (switched scene e) = target_scene e
  /\ _current_subscene (switched scene e) = target_subscene e
  /\ _current_patch (switched scene e) = Some (patch scene)
  /\ _new_scene (switched scene e) = -1
  /\ _new_subscene (switched scene e) = -1.
Proof. done. Qed.

(** C4 (amended).  With no other request pending and a handler that leaves
    the request as it is: [switch_scene(s, -1)] with [s] in the table makes
    [s] the current scene and 0 the current subscene, whatever the
    subscene was; [switch_scene(-1, ss)] with [ss] inside the list of the
    current scene keeps the current scene and makes [ss] the current
    subscene. *)
Theorem switch_scene_unset_axis (b : BufferRef) (l : EventBuffer) (e0 : Engine) :
  _new_scene e0 = -1 -> _new_subscene e0 = -1 ->
  (forall (s : Z) (scene : Scene) (rest : list Scene) (xp : option Patch)
          (k1 k2 : list MidiEvent),
      s ≠ -1 ->
      after_callback (switch_scene s (-1) e0) = switch_scene s (-1) e0 ->
      _scenes e0 !! s = Some (scene :: rest) ->
      previous_exit e0 = Ok xp ->
      dummy_output e0 xp = Ok k1 ->
      dummy_output e0 (init_patch scene) = Ok k2 ->
      exists w', process_scene_switch b (mkWorld (switch_scene s (-1) e0) l) = Ok (tt, w')
                 /\ _current_scene (eng w') = s
                 /\ _current_subscene (eng w') = 0
                 /\ _current_patch (eng w') = Some (patch scene))
  /\ (forall (ss : Z) (subs : list Scene) (scene : Scene) (xp : option Patch)
             (k1 k2 : list MidiEvent),
      0 <= ss ->
      after_callback (switch_scene (-1) ss e0) = switch_scene (-1) ss e0 ->
      _scenes e0 !! _current_scene e0 = Some subs ->
      subs !! Z.to_nat ss = Some scene ->
      previous_exit e0 = Ok xp ->
      dummy_output e0 xp = Ok k1 ->
      dummy_output e0 (init_patch scene) = Ok k2 ->
      exists w', process_scene_switch b (mkWorld (switch_scene (-1) ss e0) l) = Ok (tt, w')
                 /\ _current_scene (eng w') = _current_scene e0
                 /\ _current_subscene (eng w') = ss
                 /\ _current_patch (eng w') = Some (patch scene)).
Proof.
  intros Hns Hnss. split.
  - intros s scene rest xp k1 k2 Hs Hcb Hscene Hprev Hk1 Hk2.
    set (e := switch_scene s (-1) e0) in *.
    assert (He : _new_scene e = s /\ _new_subscene e = -1).
    { unfold e. by rewrite switch_scene_scene_only. }
    destruct He as [He1 He2].
    pose proof (switch_scene_frame s (-1) e0) as Hf. cbv zeta in Hf. fold e in Hf.
    destruct Hf as (Hv & Hb & Hsc & _ & Hc & Hcs & _ & _ & _ & _ & _ & Hpost).
    assert (Hts : target_scene e = s).
    { unfold target_scene. rewrite He1. by rewrite bool_decide_eq_true_2. }
    assert (Htss : target_subscene e = 0).
    { unfold target_subscene. rewrite He2.
      by rewrite bool_decide_eq_false_2 by (intros H; by apply H). }
    eexists. split.
    + apply (process_scene_switch_valid b _ (scene :: rest) scene xp k1 k2);
        simpl eng; rewrite ?Hcb; rewrite ?Hts, ?Htss; try done.
      * rewrite He1. intros [? _]. done.
      * by rewrite Hsc.
      * by rewrite (previous_exit_ext e0).
      * by rewrite (dummy_output_ext e0).
      * by rewrite (dummy_output_ext e0).
    + simpl eng. rewrite Hcb.
      destruct b; simpl; by rewrite ?Hts, ?Htss.
  - intros ss subs scene xp k1 k2 Hss Hcb Hsubs Hscene Hprev Hk1 Hk2.
    set (e := switch_scene (-1) ss e0) in *.
    assert (He : _new_scene e = -1 /\ _new_subscene e = ss).
    { unfold e. rewrite switch_scene_subscene_only by lia. done. }
    destruct He as [He1 He2].
    pose proof (switch_scene_frame (-1) ss e0) as Hf. cbv zeta in Hf. fold e in Hf.
    destruct Hf as (Hv & Hb & Hsc & _ & Hc & Hcs & _ & _ & _ & _ & _ & Hpost).
    assert (Hts : target_scene e = _current_scene e0).
    { unfold target_scene. rewrite He1, Hc.
      by rewrite bool_decide_eq_false_2 by (intros H; by apply H). }
    assert (Htss : target_subscene e = ss).
    { unfold target_subscene. rewrite He2. by rewrite bool_decide_eq_true_2 by lia. }
    eexists. split.
    + apply (process_scene_switch_valid b _ subs scene xp k1 k2);
        simpl eng; rewrite ?Hcb; rewrite ?Hts, ?Htss; try done.
      * rewrite He2. intros [_ ?]. lia.
      * by rewrite Hsc.
      * by rewrite (previous_exit_ext e0).
      * by rewrite (dummy_output_ext e0).
      * by rewrite (dummy_output_ext e0).
    + simpl eng. rewrite Hcb.
      destruct b; simpl; by rewrite ?Hts, ?Htss.
Qed.

(** * Adoption of scene 0 by [process_event] *)

(** C10.  With no current patch, [process_event] looks up scene 0 and takes
    its first subscene without a test: it faults when the table has no
    scene 0 (and when the list of scene 0 is empty), and with a first
    subscene in place it goes on as if the patch of that subscene had been
    current. *)
Theorem process_event_adopts_scene_0 (e : Engine) (ev : MidiEvent) :
  _current_patch e = None ->
  (_scenes e !! 0 = None -> process_event e ev = Fault)
  /\ (_scenes e !! 0 = Some [] -> process_event e ev = Fault)
  /\ (forall (scene : Scene) (rest : list Scene),
        _scenes e !! 0 = Some (scene :: rest) ->
        process_event e ev
        = process_event (set_current_patch (Some (patch scene)) e) ev).
Proof.
  intros Hnull.
  assert (Hadopt : forall r : result Scene,
    match _scenes e !! 0 with
    | Some subs => vector_at subs 0
    | None => Fault
    end = r ->
    process_event e ev
    = match r with
      | Ok scene => process_event (set_current_patch (Some (patch scene)) e) ev
      | Fault => Fault
      end).
  { intros r <-. unfold process_event.
    unfold bind at 1. unfold get_engine at 1. cbn [eng].
    unfold bind at 1. rewrite Hnull. unfold bind at 1. unfold lift at 1.
    destruct (match _scenes e !! 0 with
              | Some subs => vector_at subs 0
              | None => Fault
              end) as [scene|]; [|reflexivity].
    unfold modify_engine at 1. cbn [eng local].
    unfold bind at 3. unfold get_engine at 1. cbn [eng].
    unfold bind at 3. reflexivity. }
  split; [|split].
  - intros Hs. apply (Hadopt Fault). by rewrite Hs.
  - intros Hs. apply (Hadopt Fault). by rewrite Hs.
  - intros scene rest Hs. apply (Hadopt (Ok scene)). by rewrite Hs.
Qed.

(** * Further properties of [sanitize_event] *)

(** X1.  [sanitize_event] keeps an event exactly when the event has a valid
    port, a channel in 0..15 and passes the check of its kind; a dropped
    event is handed back as it came. *)
Theorem sanitize_event_decision (e : Engine) (ev : MidiEvent) :
  (forall ev1, sanitize_event e ev = Ok (true, ev1) ->
               passes_sanitize (_backend e) ev = true)
  /\ (passes_sanitize (_backend e) ev = true ->
      exists ev1, sanitize_event e ev = Ok (true, ev1))
  /\ (forall ev1, sanitize_event e ev = Ok (false, ev1) ->
                  ev1 = ev /\ passes_sanitize (_backend e) ev = false).
Proof.
  unfold sanitize_event, passes_sanitize, valid_port, valid_channel, kind_check.
  destruct ((port ev <? 0) || _) eqn:Hport.
  { assert (Hbad : (0 <=? port ev)
                   && match _backend e with
                      | Some n => port ev <? n
                      | None => true
                      end = false).
    { destruct (_backend e); lia. }
    rewrite Hbad. simpl.
    destruct (_verbose e), (_backend e); repeat split; intros;
      try discriminate; try (by eexists); by simplify_eq. }
  assert (Hgood : (0 <=? port ev)
                  && match _backend e with
                     | Some n => port ev <? n
                     | None => true
                     end = true).
  { destruct (_backend e); lia. }
  rewrite Hgood. simpl.
  destruct ((channel ev <? 0) || (15 <? channel ev)) eqn:Hch.
  { replace ((0 <=? channel ev) && (channel ev <=? 15)) with false by lia.
    repeat split; intros; try discriminate; by simplify_eq. }
  replace ((0 <=? channel ev) && (channel ev <=? 15)) with true by lia.
  simpl.
  destruct (type ev) eqn:Ht; cbv zeta; simpl; rewrite ?Ht;
    repeat match goal with
           | |- context [if ?c then _ else _] => destruct c eqn:?
           | |- context [match sysex ev with _ => _ end] => destruct (sysex ev) eqn:?
           end;
    simpl; repeat split; intros; try discriminate; try (by eexists);
    try (by simplify_eq); try lia.
Qed.

(** X2.  Sanitizing twice is sanitizing once: an event that was kept is
    kept again and comes back unchanged. *)
Theorem sanitize_event_idempotent (e : Engine) (ev ev1 : MidiEvent) :
  sanitize_event e ev = Ok (true, ev1) ->
  sanitize_event e ev1 = Ok (true, ev1).
Proof.
  intros Hrun. unfold sanitize_event in Hrun.
  destruct ((port ev <? 0) || _) eqn:Hport.
  { destruct (_verbose e), (_backend e); discriminate. }
  destruct ((channel ev <? 0) || (15 <? channel ev)) eqn:Hch; [discriminate|].
  destruct (type ev) eqn:Ht; cbv zeta in Hrun;
    repeat match type of Hrun with
           | context [if ?c then _ else _] => destruct c eqn:?
           | context [match sysex ev with _ => _ end] => destruct (sysex ev) eqn:?
           end;
    simplify_eq; unfold sanitize_event; simpl;
    rewrite ?Hport, ?Hch, ?Ht; simpl;
    repeat match goal with
           | H : _ = _ |- _ => rewrite H
           end; simpl; try reflexivity.
  - replace (Z.max 0 (Z.min 127 (Z.max 0 (Z.min 127 (note_velocity ev)))) <? 0)
      with false by lia.
    unfold set_note_velocity. simpl. do 3 f_equal. lia.
  - unfold set_note_velocity. simpl. do 3 f_equal. lia.
  - unfold set_ctrl_value. simpl. do 3 f_equal. lia.
Qed.

(** X3.  [sanitize_event] leaves defined behaviour in two situations only:
    a negative port on a verbose engine without backend (the diagnostic
    asks the null backend for its ports), and a SysEx event with a valid
    port and channel whose data pointer is null. *)
Theorem sanitize_event_fault_iff (e : Engine) (ev : MidiEvent) :
  sanitize_event e ev = Fault
  <-> (_verbose e = true /\ _backend e = None /\ port ev < 0)
      \/ (valid_port (_backend e) ev = true /\ valid_channel ev = true
          /\ type ev = MIDI_EVENT_SYSEX /\ sysex ev = None).
Proof.
  unfold sanitize_event, valid_port, valid_channel.
  destruct ((port ev <? 0) || _) eqn:Hport.
  { assert (Hbad : (0 <=? port ev)
                   && match _backend e with
                      | Some n => port ev <? n
                      | None => true
                      end = false).
    { destruct (_backend e); lia. }
    rewrite Hbad.
    destruct (_verbose e), (_backend e) as [n|] eqn:Hb; split;
      try discriminate; try (intros [(? & ? & ?)|(? & _)]; discriminate);
      try reflexivity.
    intros _. left. repeat split. simpl in Hport. lia. }
  assert (Hgood : (0 <=? port ev)
                  && match _backend e with
                     | Some n => port ev <? n
                     | None => true
                     end = true).
  { destruct (_backend e); lia. }
  rewrite Hgood.
  assert (Hnoneg : ~ (_verbose e = true /\ _backend e = None /\ port ev < 0)).
  { intros (_ & _ & Hneg). lia. }
  destruct ((channel ev <? 0) || (15 <? channel ev)) eqn:Hch.
  { replace ((0 <=? channel ev) && (channel ev <=? 15)) with false by lia.
    split; [discriminate|]. intros [?|(_ & ? & _)]; [tauto|discriminate]. }
  replace ((0 <=? channel ev) && (channel ev <=? 15)) with true by lia.
  destruct (type ev) eqn:Ht; cbv zeta;
    repeat match goal with
           | |- context [if ?c then _ else _] => destruct c eqn:?
           | |- context [match sysex ev with _ => _ end] => destruct (sysex ev) eqn:?
           end;
    split; try discriminate; try (intros [?|(_ & _ & ? & ?)]; [tauto|discriminate]);
    try reflexivity.
  intros _. by right.
Qed.

Lemma sysex_invalid_framed (data : list Byte.byte) :
  sysex_invalid data = false
  <-> exists body, data = Byte.xf0 :: body ++ [Byte.xf7].
Proof.
  unfold sysex_invalid. split.
  - intros H. apply orb_false_iff in H as [H Hlast].
    apply orb_false_iff in H as [Hlen Hfirst].
    apply negb_false_iff, Byte.byte_dec_bl in Hfirst.
    apply negb_false_iff, Byte.byte_dec_bl in Hlast.
    apply Nat.ltb_ge in Hlen.
    destruct data as [|x rest]; [simpl in Hlen; lia|].
    simpl in Hfirst. subst x.
    destruct rest as [|y rest _] using rev_ind; [simpl in Hlen; lia|].
    exists rest. f_equal. f_equal. f_equal.
    change (Byte.xf0 :: rest ++ [y]) with ((Byte.xf0 :: rest) ++ [y]) in Hlast.
    rewrite length_app in Hlast. simpl length in Hlast.
    replace (S (length rest) + 1 - 1)%nat with (length (Byte.xf0 :: rest)) in Hlast
      by (simpl; lia).
    by rewrite nth_middle in Hlast.
  - intros [body ->].
    change (Byte.xf0 :: body ++ [Byte.xf7]) with ((Byte.xf0 :: body) ++ [Byte.xf7]).
    rewrite length_app. simpl length.
    replace (S (length body) + 1 - 1)%nat with (length (Byte.xf0 :: body))
      by (simpl; lia).
    rewrite nth_middle. simpl.
    replace (S (length body + 1) <? 2)%nat with false; [done|].
    symmetry. apply Nat.ltb_ge. lia.
Qed.

(** X4.  A SysEx event with a valid port and channel is kept, unchanged,
    exactly when its data begin with F0 and end with F7, two bytes at
    least; with any other data it is dropped. *)
Theorem sanitize_event_sysex (e : Engine) (ev : MidiEvent) (data : list Byte.byte) :
  type ev = MIDI_EVENT_SYSEX ->
  sysex ev = Some data ->
  0 <= port ev -> (forall n, _backend e = Some n -> port ev < n) ->
  0 <= channel ev <= 15 ->
  ((exists body, data = Byte.xf0 :: body ++ [Byte.xf7]) ->
   sanitize_event e ev = Ok (true, ev))
  /\ (~ (exists body, data = Byte.xf0 :: body ++ [Byte.xf7]) ->
      sanitize_event e ev = Ok (false, ev)).
Proof.
  intros Ht Hdata Hp Hb Hc. unfold sanitize_event.
  rewrite port_test_valid, channel_test_valid, Ht, Hdata by assumption.
  split; intros Hframe.
  - apply sysex_invalid_framed in Hframe. by rewrite Hframe.
  - destruct (sysex_invalid data) eqn:Hinv; [done|].
    exfalso. apply Hframe. by apply sysex_invalid_framed.
Qed.

(** * Further properties of [get_matching_patch] and [switch_scene] *)

(** X5.  An event that is neither a note event nor controller 64 at value
    127 or 0 (a pedal at 1..126 is such an event) is routed through
    [_current_patch] and changes nothing in the engine. *)
Theorem get_matching_patch_untracked (e : Engine) (ev : MidiEvent) :
  tracked ev = false ->
  get_matching_patch e ev = (_current_patch e, e).
Proof.
  unfold tracked, get_matching_patch. intros Hun.
  apply orb_false_iff in Hun as [Hnote Hped].
  apply orb_false_iff in Hnote as [Hon Hoff].
  rewrite Hon, Hoff.
  destruct (bool_decide (type ev = MIDI_EVENT_CTRL)); [|reflexivity].
  destruct (ctrl_param ev =? 64); [|reflexivity].
  simpl in Hped. apply orb_false_iff in Hped as [-> ->]. reflexivity.
Qed.

Lemma set_noteon_patches_same (e : Engine) :
  set_noteon_patches (_noteon_patches e) e = e.
Proof. by destruct e. Qed.

Lemma set_sustain_patches_same (e : Engine) :
  set_sustain_patches (_sustain_patches e) e = e.
Proof. by destruct e. Qed.

(** X6.  A NoteOn on a key without entry followed at once by the NoteOff of
    the key brings the engine back to where it was, and both events are
    routed through [_current_patch]. *)
Theorem get_matching_patch_note_round_trip (e : Engine) (on off : MidiEvent) :
  type on = MIDI_EVENT_NOTEON ->
  type off = MIDI_EVENT_NOTEOFF ->
  make_notekey off = make_notekey on ->
  _noteon_patches e !! make_notekey on = None ->
  (get_matching_patch e on).1 = _current_patch e
  /\ get_matching_patch (get_matching_patch e on).2 off = (_current_patch e, e).
Proof.
  intros Hon Hoff Hkey Hfresh.
  rewrite get_matching_patch_noteon by exact Hon. simpl.
  split; [reflexivity|].
  rewrite get_matching_patch_noteoff by exact Hoff. simpl.
  rewrite Hkey. unfold map_insert_pair. rewrite Hfresh.
  rewrite lookup_insert_eq. f_equal.
  unfold set_noteon_patches. simpl.
  rewrite delete_insert_eq, delete_id by exact Hfresh.
  by destruct e.
Qed.

Lemma get_matching_patch_keeps_sustain_entry (e : Engine) (ev : MidiEvent)
    (k : Z * Z) (p : option Patch) :
  ~ (type ev = MIDI_EVENT_CTRL /\ ctrl_param ev = 64 /\ ctrl_value ev = 0
     /\ make_sustainkey ev = k) ->
  _sustain_patches e !! k = Some p ->
  _sustain_patches (get_matching_patch e ev).2 !! k = Some p.
Proof.
  intros Hev Hk. unfold get_matching_patch.
  repeat case_bool_decide; simpl; try done.
  - by destruct (_noteon_patches e !! make_notekey ev).
  - destruct (Z.eqb_spec (ctrl_param ev) 64) as [Hpar|]; simpl; [|done].
    destruct (Z.eqb_spec (ctrl_value ev) 127); simpl.
    + by apply map_insert_pair_keeps.
    + destruct (Z.eqb_spec (ctrl_value ev) 0) as [Hval|]; simpl; [|done].
      destruct (_sustain_patches e !! make_sustainkey ev) eqn:Hq; simpl; [|done].
      rewrite lookup_delete_ne; [done|]. intros Heq. by apply Hev.
Qed.

Lemma sustain_step_keeps_entry (k : Z * Z) (e e' : Engine) (p : option Patch) :
  sustain_step k e e' ->
  _sustain_patches e !! k = Some p -> _sustain_patches e' !! k = Some p.
Proof.
  intros Hstep Hk. destruct Hstep as [e s ss|e e' b l l' Hrun|e e' b l l' ev Hev Hrun|e].
  - pose proof (switch_scene_frame s ss e) as Hf. cbv zeta in Hf.
    destruct Hf as (_ & _ & _ & _ & _ & _ & _ & -> & _). exact Hk.
  - apply process_scene_switch_inv in Hrun as (_ & [_ Hn] & _).
    simpl in Hn. by rewrite Hn.
  - apply process_inv in Hrun as (_ & q & out & _ & _ & Hw').
    simpl in Hw'.
    assert (Hn : _sustain_patches e' = _sustain_patches (get_matching_patch e ev).2).
    { destruct b; simpl in Hw'; by injection Hw' as -> _. }
    rewrite Hn. by apply get_matching_patch_keeps_sustain_entry.
  - exact Hk.
Qed.

Lemma sustain_steps_keep_entry (k : Z * Z) (e e' : Engine) (p : option Patch) :
  rtc (sustain_step k) e e' ->
  _sustain_patches e !! k = Some p -> _sustain_patches e' !! k = Some p.
Proof.
  induction 1 as [e|e e1 e2 Hstep _ IH]; [done|].
  intros Hk. apply IH. by apply (sustain_step_keeps_entry k e).
Qed.

(** X7.  Controller 64 at value 127 on a (channel, port) without entry in
    the sustain table records [_current_patch] under that key.  After any
    number of steps of the engine that are not a release with the key, the
    release (controller 64 at value 0) is routed through the recorded patch
    and takes the entry out of the table. *)
Theorem sustain_release_follows_press (e : Engine) (down : MidiEvent) :
  type down = MIDI_EVENT_CTRL -> ctrl_param down = 64 -> ctrl_value down = 127 ->
  _sustain_patches e !! make_sustainkey down = None ->
  (get_matching_patch e down).1 = _current_patch e
  /\ forall (e2 : Engine) (up : MidiEvent),
       rtc (sustain_step (make_sustainkey down)) (get_matching_patch e down).2 e2 ->
       type up = MIDI_EVENT_CTRL -> ctrl_param up = 64 -> ctrl_value up = 0 ->
       make_sustainkey up = make_sustainkey down ->
       get_matching_patch e2 up
       = (_current_patch e,
          set_sustain_patches
            (delete (make_sustainkey down) (_sustain_patches e2)) e2).
Proof.
  intros Ht Hpar Hval Hfresh.
  assert (Hdown : get_matching_patch e down
    = (_current_patch e,
       set_sustain_patches
         (map_insert_pair (make_sustainkey down) (_current_patch e)
                          (_sustain_patches e)) e)).
  { unfold get_matching_patch. by rewrite Ht, Hpar, Hval. }
  rewrite Hdown. simpl. split; [reflexivity|].
  intros e2 up Hsteps Hut Hupar Huval Hkey.
  apply (sustain_steps_keep_entry _ _ _ (_current_patch e)) in Hsteps.
  2:{ simpl. by apply map_insert_pair_fresh. }
  unfold get_matching_patch. rewrite Hut, Hupar, Huval. simpl.
  by rewrite Hkey, Hsteps.
Qed.

(** X8.  Requests merge axis by axis: two calls of [switch_scene] leave the
    pending fields as one call would that takes, on each axis, the later
    argument unless it is -1 and the earlier one otherwise; a call with -1
    on both axes changes nothing. *)
Theorem switch_scene_merge (s1 ss1 s2 ss2 : Z) (e : Engine) :
  switch_scene s2 ss2 (switch_scene s1 ss1 e)
  = switch_scene (if bool_decide (s2 ≠ -1) then s2 else s1)
                 (if bool_decide (ss2 ≠ -1) then ss2 else ss1) e
  /\ switch_scene (-1) (-1) e = e.
Proof.
  split; [|reflexivity].
  unfold switch_scene. by repeat case_bool_decide.
Qed.

(** * Further properties of [process_scene_switch] *)

(** The three ways in which [process_scene_switch] returns: nothing was
    pending; the target was not in the table; the switch took place. *)
Lemma process_scene_switch_cases (b : BufferRef) (w w' : World) :
  process_scene_switch b w = Ok (tt, w') ->
  let e := after_callback (eng w) in
  (_new_scene (eng w) = -1 /\ _new_subscene (eng w) = -1 /\ w' = w)
  \/ w' = mkWorld (set_new_subscene (-1) (set_new_scene (-1) e)) (local w)
  \/ exists scene k,
       scene_at e (target_scene e) (target_subscene e) = Ok scene
       /\ w' = with_buffer b (buffer_of b w ++ k)
                           (mkWorld (switched scene e) (local w)).
Proof.
  intros Hrun e.
  destruct (decide (_new_scene (eng w) = -1 /\ _new_subscene (eng w) = -1))
    as [[Hi1 Hi2]|Hpend].
  { rewrite process_scene_switch_idle in Hrun by assumption.
    injection Hrun as <-. by left. }
  right.
  destruct (_scenes e !! target_scene e) as [subs|] eqn:Hsubs.
  2:{ left. rewrite process_scene_switch_invalid in Hrun.
      - by injection Hrun as <-.
      - done.
      - fold e. by rewrite Hsubs. }
  destruct (decide (target_subscene e < Z.of_nat (length subs))) as [Hlt|Hge].
  2:{ left. rewrite process_scene_switch_invalid in Hrun.
      - by injection Hrun as <-.
      - done.
      - fold e. rewrite Hsubs. lia. }
  right.
  rewrite (process_scene_switch_in_range b w subs) in Hrun by done.
  fold e in Hrun. unfold scene_at. rewrite Hsubs.
  destruct (vector_at subs (target_subscene e)) as [scene|]; [|discriminate].
  destruct (previous_exit e) as [xp|]; [|discriminate].
  destruct (dummy_output e xp) as [k1|]; [|discriminate].
  destruct (dummy_output e (init_patch scene)) as [k2|]; [|discriminate].
  injection Hrun as <-. by exists scene, (k1 ++ k2).
Qed.

(** X9.  When [process_scene_switch] returns, no request is pending any
    more, whether the target existed or not, and calling it again changes
    nothing. *)
Theorem process_scene_switch_consumes_request (b : BufferRef) (w w' : World) :
  process_scene_switch b w = Ok (tt, w') ->
  _new_scene (eng w') = -1 /\ _new_subscene (eng w') = -1
  /\ process_scene_switch b w' = Ok (tt, w').
Proof.
  intros Hrun.
  assert (Hdone : _new_scene (eng w') = -1 /\ _new_subscene (eng w') = -1).
  { apply process_scene_switch_cases in Hrun as Hcases. cbv zeta in Hcases.
    destruct Hcases as [(? & ? & ->)|[->|(scene & k & _ & ->)]]; [done|done|].
    by destruct b. }
  destruct Hdone as [Hs Hss]. repeat split; try done.
  by apply process_scene_switch_idle.
Qed.

Lemma scene_at_ext (e e' : Engine) (s ss : Z) :
  _scenes e' = _scenes e -> scene_at e' s ss = scene_at e s ss.
Proof. intros Hs. unfold scene_at. by rewrite Hs. Qed.

Lemma current_consistent_ext (e e' : Engine) :
  _scenes e' = _scenes e -> _current_patch e' = _current_patch e ->
  _current_scene e' = _current_scene e ->
  _current_subscene e' = _current_subscene e ->
  current_consistent e -> current_consistent e'.
Proof.
  intros Hs Hp Hc Hcs [Hnone|(scene & Hat & Hpatch)].
  - left. congruence.
  - right. exists scene. rewrite Hc, Hcs, Hp, (scene_at_ext e) by done. done.
Qed.

(** X10.  The current patch stays the patch of the current subscene: an
    engine in which [_current_patch] is the patch that the table holds at
    ([_current_scene], [_current_subscene]) is again such an engine after a
    call of [switch_scene], after a run of [process_scene_switch] and after
    a run of [process]. *)
Theorem current_consistent_kept (e : Engine) :
  current_consistent e ->
  (forall s ss, current_consistent (switch_scene s ss e))
  /\ (forall b l w', process_scene_switch b (mkWorld e l) = Ok (tt, w') ->
                     current_consistent (eng w'))
  /\ (forall b l ev w', process b ev (mkWorld e l) = Ok (tt, w') ->
                        current_consistent (eng w')).
Proof.
  intros Hcons. split; [|split].
  - intros s ss. pose proof (switch_scene_frame s ss e) as Hf. cbv zeta in Hf.
    destruct Hf as (_ & _ & Hs & Hp & Hc & Hcs & _).
    by apply (current_consistent_ext e).
  - intros b l w' Hrun.
    pose proof (after_callback_frame e) as Hf. cbv zeta in Hf.
    destruct Hf as (_ & _ & Hs & Hp & Hc & Hcs & _).
    apply process_scene_switch_cases in Hrun. cbv zeta in Hrun. simpl in Hrun.
    destruct Hrun as [(_ & _ & ->)|[->|(scene & k & Hat & ->)]].
    + exact Hcons.
    + by apply (current_consistent_ext e).
    + right. exists scene. split.
      * rewrite <- Hat. destruct b; by apply scene_at_ext.
      * by destruct b.
  - intros b l ev w' Hrun.
    apply process_inv in Hrun as (_ & p & k & _ & _ & ->).
    pose proof (get_matching_patch_frame e ev) as Hf. cbv zeta in Hf.
    destruct Hf as (_ & _ & Hs & Hp & Hc & Hcs & _).
    apply (current_consistent_ext e); by destruct b.
Qed.

(** X11.  A request whose scene is not in the table, or whose subscene
    index is at or past the end of the scene's list, is dropped: the run
    returns, the current scene, subscene and patch and both buffers are as
    before, and nothing is pending. *)
Theorem process_scene_switch_unknown_target (b : BufferRef) (w : World) :
  let e := after_callback (eng w) in
  ~ (_new_scene (eng w) = -1 /\ _new_subscene (eng w) = -1) ->
  (_scenes e !! target_scene e = None
   \/ exists subs, _scenes e !! target_scene e = Some subs
                   /\ Z.of_nat (length subs) <= target_subscene e) ->
  exists w', process_scene_switch b w = Ok (tt, w')
             /\ _current_scene (eng w') = _current_scene (eng w)
             /\ _current_subscene (eng w') = _current_subscene (eng w)
             /\ _current_patch (eng w') = _current_patch (eng w)
             /\ _buffer (eng w') = _buffer (eng w)
             /\ local w' = local w
             /\ _new_scene (eng w') = -1 /\ _new_subscene (eng w') = -1.
Proof.
  intros e Hpend Htarget.
  pose proof (after_callback_frame (eng w)) as Hf. cbv zeta in Hf. fold e in Hf.
  destruct Hf as (_ & _ & _ & Hp & Hc & Hcs & _ & _ & Hbuf & _).
  eexists. split.
  - apply process_scene_switch_invalid; [exact Hpend|]. fold e.
    destruct Htarget as [->|(subs & -> & Hlen)]; done.
  - simpl. by repeat split.
Qed.

(** * Registration of scenes *)

Lemma vector_at_length {A : Type} (l : list A) (x : A) :
  vector_at (l ++ [x]) (Z.of_nat (length l)) = Ok x.
Proof.
  unfold vector_at.
  destruct (Z.ltb_spec (Z.of_nat (length l)) 0) as [Hlt|_]; [lia|].
  by rewrite Nat2Z.id, list_lookup_middle.
Qed.

Lemma vector_at_app {A : Type} (l k : list A) (i : Z) (x : A) :
  vector_at l i = Ok x -> vector_at (l ++ k) i = Ok x.
Proof.
  unfold vector_at. destruct (i <? 0); [discriminate|].
  destruct (l !! Z.to_nat i) as [y|] eqn:Hy; [|discriminate].
  intros [= ->]. by rewrite (lookup_app_l_Some _ _ _ _ Hy).
Qed.

(** X12.  [add_scene] appends: the new subscene gets the next free index of
    its scene number (0 for a number that had no scene), every subscene
    registered before keeps its number and index, and the lists of the other
    scene numbers are not touched. *)
Theorem add_scene_lookup (i : Z) (p : Patch) (init exit : option Patch) (e : Engine) :
  scene_at (add_scene i p init exit e) i
           (Z.of_nat (length (default [] (_scenes e !! i))))
  = Ok (mkScene p init exit)
  /\ (forall j ss sc, scene_at e j ss = Ok sc ->
                      scene_at (add_scene i p init exit e) j ss = Ok sc)
  /\ (forall j, j ≠ i ->
                _scenes (add_scene i p init exit e) !! j = _scenes e !! j)
  /\ has_scene (add_scene i p init exit e) i = true.
Proof.
  assert (Hnew : _scenes (add_scene i p init exit e) !! i
                 = Some (default [] (_scenes e !! i) ++ [mkScene p init exit])).
  { unfold add_scene. destruct (has_scene e i) eqn:Hhas; simpl;
      rewrite lookup_insert_eq; [done|].
    rewrite lookup_insert_eq. unfold has_scene in Hhas.
    apply bool_decide_eq_false_1 in Hhas.
    destruct (_scenes e !! i) eqn:Hi; [|done].
    exfalso. apply Hhas. by eexists. }
  assert (Hother : forall j, j ≠ i ->
            _scenes (add_scene i p init exit e) !! j = _scenes e !! j).
  { intros j Hj. unfold add_scene. simpl.
    rewrite lookup_insert_ne by done.
    destruct (has_scene e i); [done|]. by rewrite lookup_insert_ne. }
  split; [|split; [|split]].
  - unfold scene_at. rewrite Hnew. apply vector_at_length.
  - intros j ss sc. unfold scene_at.
    destruct (decide (j = i)) as [->|Hj].
    + rewrite Hnew. destruct (_scenes e !! i) as [subs|]; [|discriminate].
      simpl. apply vector_at_app.
    + by rewrite Hother.
  - exact Hother.
  - unfold has_scene. apply bool_decide_eq_true_2. rewrite Hnew. by eexists.
Qed.

(** * Start-up and deferred switches *)


(** [run_init] stops at its assertion for a scene number that is not in the
    table, and at [begin()] on a table without scenes. *)
Lemma run_init_unknown_scene (s ss : Z) (e : Engine) :
  s ≠ -1 -> _scenes e !! s = None -> run_init s ss e = Fault.
Proof.
  intros Hs Hnone. unfold run_init, has_scene.
  replace (s =? -1) with false by lia.
  rewrite bool_decide_eq_false_2; [done|]. rewrite Hnone. by intros [? ?].
Qed.

(** X14.  [run_async] without a backend, or with nothing pending, hands
    nothing to the backend and leaves the engine as it is (without a
    backend the request stays pending).  When it does hand over a buffer,
    every event in it has passed sanitize and no request is pending
    afterwards. *)
Theorem run_async_result (e e' : Engine) (out : option (list MidiEvent)) :
  run_async e = Ok (out, e') ->
  (_backend e = None -> out = None /\ e' = e)
  /\ (_new_scene e = -1 -> _new_subscene e = -1 -> out = None /\ e' = e)
  /\ (forall l, out = Some l ->
        Forall (sane (_backend e)) l
        /\ _new_scene e' = -1 /\ _new_subscene e' = -1).
Proof.
  unfold run_async. intros Hrun. destruct (_backend e) as [n|] eqn:Hb.
  2:{ injection Hrun as <- <-. repeat split; done. }
  destruct (negb (_new_scene e =? -1) || negb (_new_subscene e =? -1)) eqn:Hpend.
  2:{ injection Hrun as <- <-. repeat split; done. }
  match type of Hrun with
  | match ?run ?w0 with _ => _ end = _ =>
      destruct (run w0) as [[[] w]|] eqn:Hw; [|discriminate]
  end.
  injection Hrun as <- <-.
  apply bind_Ok_inv in Hw as ([] & w0 & Hput & Hswitch).
  unfold put_buffer in Hput. injection Hput as <-.
  split; [discriminate|]. split; [lia|].
  intros l [= <-].
  apply process_scene_switch_consumes_request in Hswitch as Hdone.
  destruct Hdone as (Hs & Hss & _).
  apply process_scene_switch_inv in Hswitch as (_ & _ & _ & sw & Hsw & Hsane).
  simpl in Hsw, Hsane. rewrite Hsw, Hb in *. done.
Qed.

(** * The pipeline of [process] and the turns of [run_cycle] *)

(** X15.  On the engine's own buffer, [process] runs the pipeline in this
    order: the ctrl patch sees a copy of the event and its output stays at
    the head of the buffer; the second copy goes through the pre patch, the
    matched patch and the post patch, and what that leaves is sanitized.
    The ctrl output enters none of the later stages.  The run stops at the
    assertion on a buffer that is not empty and at the null pointer when no
    patch is matched. *)
Theorem process_pipeline (ev : MidiEvent) (w : World) :
  (_buffer (eng w) ≠ [] -> process this_buffer ev w = Fault)
  /\ (_buffer (eng w) = [] ->
      let e1 := (get_matching_patch (eng w) ev).2 in
      process this_buffer ev w
      = match (get_matching_patch (eng w) ev).1 with
        | None => Fault
        | Some p =>
            match Sanitize_units e1 true
                    (through (_post_patch e1)
                       (patch_process p (through (_pre_patch e1) [ev]))) with
            | Ok k => Ok (tt, mkWorld (set_buffer (ctrl_output e1 ev ++ k) e1)
                                      (local w))
            | Fault => Fault
            end
        end).
Proof.
  split.
  - intros Hne. unfold process, bind at 1, get_buffer at 1. simpl.
    by destruct (_buffer (eng w)).
  - intros Hempty. cbv zeta. by rewrite process_run.
Qed.

Lemma ctrl_output_ext (e e' : Engine) (ev : MidiEvent) :
  _ctrl_patch e' = _ctrl_patch e -> ctrl_output e' ev = ctrl_output e ev.
Proof. intros Hc. unfold ctrl_output. by rewrite Hc. Qed.

(** One turn of the loop of [run_cycle], taken apart. *)
Lemma run_cycle_turn_inv (e : Engine) (ev : MidiEvent) (w : World) :
  (do_ put_buffer this_buffer [];
   do_ process this_buffer ev;
   process_scene_switch this_buffer) (mkWorld e []) = Ok (tt, w) ->
  let e1 := (get_matching_patch (set_buffer [] e) ev).2 in
  exists p k sw,
    (get_matching_patch (set_buffer [] e) ev).1 = Some p
    /\ Sanitize_units e1 true (main_output e1 p ev) = Ok k
    /\ process_scene_switch this_buffer
         (mkWorld (set_buffer (ctrl_output e1 ev ++ k) e1) []) = Ok (tt, w)
    /\ _buffer (eng w) = ctrl_output e ev ++ k ++ sw
    /\ Forall (sane (_backend e)) (k ++ sw)
    /\ same_setup e (eng w).
Proof.
  intros Hturn e1.
  apply bind_Ok_inv in Hturn as ([] & w0 & Hput & Hturn).
  unfold put_buffer in Hput. injection Hput as <-.
  apply bind_Ok_inv in Hturn as ([] & w1 & Hproc & Hswitch).
  apply process_inv in Hproc as (_ & p & k & Hp & Hk & ->).
  simpl in Hp, Hk, Hswitch. fold e1 in Hk, Hswitch.
  pose proof (get_matching_patch_frame (set_buffer [] e) ev) as Hf.
  cbv zeta in Hf. fold e1 in Hf. simpl in Hf.
  destruct Hf as (Hv & Hb & Hs & _ & _ & _ & _ & _ & _ & Hc & Hpre & Hpost).
  apply process_scene_switch_inv in Hswitch as Hinv.
  destruct Hinv as (Hsetup & _ & _ & sw & Hsw & Hsane).
  simpl in Hsetup, Hsw, Hsane.
  exists p, k, sw. split; [exact Hp|]. split; [exact Hk|]. split; [exact Hswitch|].
  split; [|split].
  - rewrite Hsw, <- app_assoc. f_equal. by apply ctrl_output_ext.
  - apply Forall_app. split.
    + apply Sanitize_units_sane in Hk. by rewrite Hb in Hk.
    + by rewrite Hb in Hsane.
  - destruct Hsetup as (H1 & H2 & H3 & H4 & H5 & H6).
    simpl in H1, H2, H3, H4, H5, H6.
    unfold same_setup. repeat split; congruence.
Qed.

Lemma same_setup_trans (e1 e2 e3 : Engine) :
  same_setup e1 e2 -> same_setup e2 e3 -> same_setup e1 e3.
Proof. unfold same_setup. intuition congruence. Qed.

(** X16.  [run_cycle] hands one buffer to the backend for every inbound
    event, in the order of the events.  Each buffer begins with the output
    of the ctrl patch for its event, and everything after that output has
    passed sanitize; the set-up of the engine (backend, scene table, wrapper
    patches) is the same after the cycle. *)
Theorem run_cycle_batches (inbound : list MidiEvent) (e e' : Engine)
    (outs : list (list MidiEvent)) :
  run_cycle inbound e = Ok (outs, e') ->
  Forall2 (fun ev out => exists rest, out = ctrl_output e ev ++ rest
                                      /\ Forall (sane (_backend e)) rest)
          inbound outs
  /\ same_setup e e'.
Proof.
  revert e outs. induction inbound as [|ev rest IH]; intros e outs Hrun.
  - simpl in Hrun. injection Hrun as <- <-. split; [constructor|].
    unfold same_setup. tauto.
  - simpl in Hrun.
    match type of Hrun with
    | match ?turn ?w0 with _ => _ end = _ =>
        destruct (turn w0) as [[[] w]|] eqn:Hturn; [|discriminate]
    end.
    destruct (run_cycle rest (eng w)) as [[outs1 e2]|] eqn:Hrest; [|discriminate].
    injection Hrun as <- <-.
    apply run_cycle_turn_inv in Hturn. cbv zeta in Hturn.
    destruct Hturn as (p & k & sw & _ & _ & _ & Hbuf & Hsane & Hsetup).
    apply IH in Hrest as [Hall Hsetup2].
    split; [|by apply (same_setup_trans e (eng w))].
    constructor; [by exists (k ++ sw)|].
    destruct Hsetup as (_ & Hb & _ & Hc & _).
    eapply Forall2_impl; [exact Hall|].
    intros ev1 out (rest1 & -> & Hrest1). exists rest1.
    by rewrite (ctrl_output_ext e (eng w)), <- Hb.
Qed.

(** X17.  In a turn of [run_cycle] the event comes before the switch: with
    a request pending, the inbound event is still matched and processed by
    the patch that is current when it arrives, the switch is carried out
    after it, and what the exit and init patches put out follows the event
    in the same buffer. *)
Theorem run_cycle_event_before_switch (e : Engine) (ev : MidiEvent)
    (outs : list (list MidiEvent)) (e' : Engine) :
  run_cycle [ev] e = Ok (outs, e') ->
  let e1 := (get_matching_patch (set_buffer [] e) ev).2 in
  exists p k sw w,
    (get_matching_patch (set_buffer [] e) ev).1 = Some p
    /\ Sanitize_units e1 true (main_output e1 p ev) = Ok k
    /\ process_scene_switch this_buffer
         (mkWorld (set_buffer (ctrl_output e1 ev ++ k) e1) []) = Ok (tt, w)
    /\ e' = eng w
    /\ outs = [ctrl_output e ev ++ k ++ sw].
Proof.
  intros Hrun e1. simpl in Hrun.
  match type of Hrun with
  | match ?turn ?w0 with _ => _ end = _ =>
      destruct (turn w0) as [[[] w]|] eqn:Hturn; [|discriminate]
  end.
  injection Hrun as <- <-.
  apply run_cycle_turn_inv in Hturn. cbv zeta in Hturn. fold e1 in Hturn.
  destruct Hturn as (p & k & sw & Hp & Hk & Hswitch & Hbuf & _).
  exists p, k, sw, w. by rewrite Hbuf.
Qed.

(** X18.  Tracking comes before validation: once [process] has returned for
    a NoteOn, the note-on table has an entry for the key of the event, also
    when sanitize has dropped the event itself. *)
Theorem process_tracks_before_sanitize (b : BufferRef) (ev : MidiEvent) (w w' : World) :
  type ev = MIDI_EVENT_NOTEON ->
  process b ev w = Ok (tt, w') ->
  is_Some (_noteon_patches (eng w') !! make_notekey ev).
Proof.
  intros Ht Hrun. apply process_inv in Hrun as (_ & p & k & _ & _ & ->).
  assert (Hn : _noteon_patches
                 (eng (with_buffer b (ctrl_output (get_matching_patch (eng w) ev).2 ev ++ k)
                         (mkWorld (get_matching_patch (eng w) ev).2 (local w))))
               = _noteon_patches (get_matching_patch (eng w) ev).2)
    by (by destruct b).
  rewrite Hn, get_matching_patch_noteon by exact Ht. simpl.
  unfold map_insert_pair.
  destruct (_noteon_patches (eng w) !! make_notekey ev) eqn:Hk.
  - rewrite Hk. by eexists.
  - rewrite lookup_insert_eq. by eexists.
Qed.

End Dispatcher.

(** * The theorems at concrete inputs *)


Lemma sanitize_event_noteon_velocity_0 :
  sanitize_event (engine_idle None) noteon_velocity_0
  = Ok (true, noteon_velocity_0).
Proof.
  refine (proj2 (proj2 (proj2
    (sanitize_event_noteon_kept (engine_idle None) noteon_velocity_0
       eq_refl _ _ _ _))) eq_refl).
  - simpl. lia.
  - intros n Hn. discriminate Hn.
  - simpl. lia.
  - simpl. lia.
Defined.

(** C7 at a NoteOff that nothing announced. *)
Lemma get_matching_patch_noteoff_unmatched_example :
  get_matching_patch engine_scene_1 note_off_60
  = (_current_patch engine_scene_1, engine_scene_1).
Proof.
  apply (proj1 (get_matching_patch_noteoff_unmatched engine_scene_1 note_off_60
                  eq_refl)).
  reflexivity.
Defined.




(** The sanitize call of [process] names [_buffer].  In [run_cycle], where
    that is the buffer being filled, an event on channel 16 is dropped; in
    [process_event], which fills a buffer of its own, the same event would
    have to be erased from a list that does not hold it. *)
Example run_cycle_drops_invalid_channel :
  exists e' : Engine,
    run_cycle example_patch_process no_callback
      [set_channel 16 note_on_60] engine_scene_1 = Ok ([[]], e').
Proof. eexists. vm_compute. reflexivity. Qed.

Example process_event_cannot_drop :
  process_event example_patch_process no_callback engine_scene_1
    (set_channel 16 note_on_60) = Fault.
Proof. vm_compute. reflexivity. Qed.


(** C4, as it was stated, fails: from subscene 1 of scene 1,
    [switch_scene(2, -1)] ends in subscene 0 of scene 2. *)
Lemma switch_scene_resets_subscene :
  exists w' : World,
    process_scene_switch example_patch_process no_callback this_buffer
      (mkWorld (switch_scene 2 (-1) engine_scene_1_subscene_1) []) = Ok (tt, w')
    /\ _current_subscene engine_scene_1_subscene_1 = 1
    /\ _current_subscene (eng w') = 0
    /\ _current_subscene (eng w') <> _current_subscene engine_scene_1_subscene_1.
Proof.
  eexists. split; [vm_compute; reflexivity|].
  repeat split. vm_compute. discriminate.
Qed.

(** C4 (amended) at the same switch. *)
Lemma switch_scene_unset_axis_example :
  exists w' : World,
    process_scene_switch example_patch_process no_callback this_buffer
      (mkWorld (switch_scene 2 (-1) engine_scene_1_subscene_1) []) = Ok (tt, w')
    /\ _current_scene (eng w') = 2
    /\ _current_subscene (eng w') = 0
    /\ _current_patch (eng w') = Some 2%nat.
Proof.
  apply (proj1 (switch_scene_unset_axis example_patch_process no_callback
                  this_buffer [] engine_scene_1_subscene_1 eq_refl eq_refl)
           2 (mkScene 2%nat (Some 11%nat) None) [mkScene 4%nat None None] None
           [] [ctrl_event 121 0]).
  - discriminate.
  - vm_compute. reflexivity.
  - vm_compute. reflexivity.
  - vm_compute. reflexivity.
  - vm_compute. reflexivity.
  - vm_compute. reflexivity.
Defined.

(** C5 (the code departs from the claim).  With scene 1 a list of two
    subscenes, the request [switch_scene(1, -2)] names a subscene index
    outside the list; the test [size > -2] lets it through and the list is
    indexed at -2. *)
Theorem process_scene_switch_negative_subscene_faults :
  _scenes engine_scene_1 !! 1 = Some [mkScene 1%nat None (Some 10%nat); mkScene 3%nat None None]
  /\ process_scene_switch example_patch_process no_callback this_buffer
       (mkWorld (switch_scene 1 (-2) engine_scene_1) []) = Fault.
Proof. split; vm_compute; reflexivity. Qed.

(** C6 at the switch from scene 1 (exit patch 10) to scene 2 (init patch
    11): controller 120 is put out before controller 121, also with patch 7
    as ctrl and as pre patch. *)
Lemma scene_switch_exit_before_init_example :
  (exists w' : World,
     process_scene_switch example_patch_process no_callback this_buffer
       (mkWorld (switch_scene 2 (-1) engine_scene_1) []) = Ok (tt, w')
     /\ buffer_of this_buffer w' = [ctrl_event 120 0; ctrl_event 121 0])
  /\ (exists w' : World,
        process_scene_switch example_patch_process no_callback this_buffer
          (mkWorld (set_ctrl_pre (Some 7%nat) (Some 7%nat)
                      (switch_scene 2 (-1) engine_scene_1)) [])
        = Ok (tt, w')
        /\ buffer_of this_buffer w' = [ctrl_event 120 0; ctrl_event 121 0]).
Proof.
  destruct (scene_switch_exit_before_init example_patch_process no_callback
           this_buffer (mkWorld (switch_scene 2 (-1) engine_scene_1) [])
           [mkScene 2%nat (Some 11%nat) None; mkScene 4%nat None None]
           (mkScene 2%nat (Some 11%nat) None) (mkScene 1%nat None (Some 10%nat))
           10%nat 11%nat [ctrl_event 120 0] [ctrl_event 121 0])
    as [Hplain Hany].
  - vm_compute. intros [H _]. discriminate H.
  - vm_compute. reflexivity.
  - vm_compute. discriminate.
  - vm_compute. reflexivity.
  - vm_compute. discriminate.
  - vm_compute. reflexivity.
  - reflexivity.
  - reflexivity.
  - vm_compute. reflexivity.
  - vm_compute. reflexivity.
  - split; [exact Hplain|exact (Hany (Some 7%nat) (Some 7%nat))].
Defined.

(** C10 at an engine without scenes. *)
Lemma process_event_adopts_scene_0_example :
  process_event example_patch_process no_callback (engine_idle None) note_on_60
  = Fault.
Proof.
  apply (proj1 (process_event_adopts_scene_0 example_patch_process no_callback
                  (engine_idle None) note_on_60 eq_refl)).
  reflexivity.
Defined.

(** * The further properties at concrete inputs *)

(** X2 at a NoteOn of velocity 200: clamped to 127 once, unchanged after. *)
Lemma sanitize_event_idempotent_example :
  sanitize_event (engine_idle (Some 1)) (set_note_velocity 127 note_on_60)
  = Ok (true, set_note_velocity 127 note_on_60).
Proof.
  apply (sanitize_event_idempotent (engine_idle (Some 1))
           (set_note_velocity 200 note_on_60)).
  reflexivity.
Defined.

(** X4 at the message F0 7E F7. *)
Lemma sanitize_event_sysex_example :
  sanitize_event (engine_idle (Some 1)) sysex_event = Ok (true, sysex_event).
Proof.
  apply (proj1 (sanitize_event_sysex (engine_idle (Some 1)) sysex_event
                  [Byte.xf0; Byte.x7e; Byte.xf7] eq_refl eq_refl
                  ltac:(simpl; lia)
                  ltac:(intros n [= <-]; simpl; lia)
                  ltac:(simpl; lia))).
  exists [Byte.x7e]. reflexivity.
Defined.

(** X5 at a half-pressed pedal. *)
Lemma get_matching_patch_untracked_example :
  get_matching_patch engine_scene_1 sustain_half
  = (_current_patch engine_scene_1, engine_scene_1).
Proof. apply get_matching_patch_untracked. reflexivity. Defined.

(** X6 at note 60. *)
Lemma get_matching_patch_note_round_trip_example :
  get_matching_patch (get_matching_patch engine_scene_1 note_on_60).2 note_off_60
  = (Some 1%nat, engine_scene_1).
Proof.
  apply (proj2 (get_matching_patch_note_round_trip engine_scene_1
                  note_on_60 note_off_60 eq_refl eq_refl eq_refl eq_refl)).
Defined.

(** X7 at a pedal pressed under scene 1 and released after the switch to
    scene 2. *)
Lemma sustain_release_follows_press_example :
  (get_matching_patch
     (engine_of
        (process_scene_switch example_patch_process no_callback this_buffer
           (mkWorld (switch_scene 2 (-1)
                       (get_matching_patch engine_scene_1 sustain_down).2) []))
        engine_scene_1)
     sustain_up).1 = Some 1%nat.
Proof.
  destruct (sustain_release_follows_press example_patch_process no_callback
              engine_scene_1 sustain_down eq_refl eq_refl eq_refl eq_refl)
    as (_ & Hup).
  refine (f_equal fst (Hup _ sustain_up _ eq_refl eq_refl eq_refl eq_refl)).
  eapply rtc_l; [apply (sustain_step_switch_scene _ _ _ _ 2 (-1))|].
  eapply rtc_l; [|apply rtc_refl].
  apply (sustain_step_process_scene_switch _ _ _ _ _ this_buffer [] []).
  vm_compute. reflexivity.
Defined.

(** X9 at the switch from scene 1 to scene 2. *)
Lemma process_scene_switch_consumes_request_example :
  _new_scene
    (eng (world_of
            (process_scene_switch example_patch_process no_callback this_buffer
               (mkWorld (switch_scene 2 (-1) engine_scene_1) []))
            (mkWorld engine_scene_1 []))) = -1.
Proof.
  apply (process_scene_switch_consumes_request example_patch_process no_callback
           this_buffer (mkWorld (switch_scene 2 (-1) engine_scene_1) [])).
  vm_compute. reflexivity.
Defined.

(** X10 at scene 1 with a request for scene 2. *)
Lemma current_consistent_kept_example :
  current_consistent (switch_scene 2 0 engine_scene_1).
Proof.
  apply (proj1 (current_consistent_kept example_patch_process no_callback
                  engine_scene_1
                  (or_intror (ex_intro _ (mkScene 1%nat None (Some 10%nat))
                                       (conj eq_refl eq_refl))))).
Defined.

(** X11 at a request for scene 9, which the table does not have. *)
Lemma process_scene_switch_unknown_target_example :
  exists w',
    process_scene_switch example_patch_process no_callback this_buffer
      (mkWorld (switch_scene 9 (-1) engine_scene_1) []) = Ok (tt, w')
    /\ _current_scene (eng w') = 1
    /\ _current_subscene (eng w') = 0
    /\ _current_patch (eng w') = Some 1%nat
    /\ _buffer (eng w') = []
    /\ local w' = []
    /\ _new_scene (eng w') = -1 /\ _new_subscene (eng w') = -1.
Proof.
  apply (process_scene_switch_unknown_target example_patch_process no_callback
           this_buffer (mkWorld (switch_scene 9 (-1) engine_scene_1) [])).
  - vm_compute. intros [H _]. discriminate H.
  - left. vm_compute. reflexivity.
Defined.


(** X14 at a request for scene 2 picked up by [run_async]. *)
Lemma run_async_result_example :
  Forall (sane (Some 1)) [ctrl_event 120 0; ctrl_event 121 0]
  /\ _new_scene
       (engine_of
          (process_scene_switch example_patch_process no_callback this_buffer
             (mkWorld (switch_scene 2 (-1) engine_scene_1) []))
          engine_scene_1) = -1
  /\ _new_subscene
       (engine_of
          (process_scene_switch example_patch_process no_callback this_buffer
             (mkWorld (switch_scene 2 (-1) engine_scene_1) []))
          engine_scene_1) = -1.
Proof.
  apply (proj2 (proj2
           (run_async_result example_patch_process no_callback
              (switch_scene 2 (-1) engine_scene_1)
              (engine_of
                 (process_scene_switch example_patch_process no_callback this_buffer
                    (mkWorld (switch_scene 2 (-1) engine_scene_1) []))
                 engine_scene_1)
              (Some [ctrl_event 120 0; ctrl_event 121 0])
              ltac:(vm_compute; reflexivity)))
           [ctrl_event 120 0; ctrl_event 121 0] eq_refl).
Defined.

(** X16 at a NoteOn and its NoteOff in one cycle. *)
Lemma run_cycle_batches_example :
  Forall2 (fun ev out =>
             exists rest, out = ctrl_output example_patch_process engine_scene_1 ev ++ rest
                          /\ Forall (sane (_backend engine_scene_1)) rest)
          [note_on_60; note_off_60] [[note_on_60]; [note_off_60]]
  /\ same_setup engine_scene_1 (set_buffer [note_off_60] engine_scene_1).
Proof.
  apply (run_cycle_batches example_patch_process no_callback
           [note_on_60; note_off_60] engine_scene_1).
  vm_compute. reflexivity.
Defined.

(** X17 at a NoteOn that arrives with a request for scene 2 pending: the
    NoteOn goes through patch 1 and leaves first, controllers 120 and 121
    follow it. *)
Lemma run_cycle_event_before_switch_example :
  exists p k sw w,
    (get_matching_patch (set_buffer [] (switch_scene 2 (-1) engine_scene_1))
                        note_on_60).1 = Some p
    /\ Sanitize_units
         (get_matching_patch (set_buffer [] (switch_scene 2 (-1) engine_scene_1))
                             note_on_60).2 true
         (main_output example_patch_process
            (get_matching_patch (set_buffer [] (switch_scene 2 (-1) engine_scene_1))
                                note_on_60).2 p note_on_60) = Ok k
    /\ process_scene_switch example_patch_process no_callback this_buffer
         (mkWorld
            (set_buffer
               (ctrl_output example_patch_process
                  (get_matching_patch
                     (set_buffer [] (switch_scene 2 (-1) engine_scene_1))
                     note_on_60).2 note_on_60 ++ k)
               (get_matching_patch
                  (set_buffer [] (switch_scene 2 (-1) engine_scene_1))
                  note_on_60).2) []) = Ok (tt, w)
    /\ cycle_engine_of
         (run_cycle example_patch_process no_callback [note_on_60]
            (switch_scene 2 (-1) engine_scene_1)) engine_scene_1 = eng w
    /\ [[note_on_60; ctrl_event 120 0; ctrl_event 121 0]]
       = [ctrl_output example_patch_process (switch_scene 2 (-1) engine_scene_1)
            note_on_60 ++ k ++ sw].
Proof.
  apply (run_cycle_event_before_switch example_patch_process no_callback
           (switch_scene 2 (-1) engine_scene_1) note_on_60
           [[note_on_60; ctrl_event 120 0; ctrl_event 121 0]]).
  vm_compute. reflexivity.
Defined.

(** X18 at a NoteOn on channel 16: the event is dropped, its key is
    tracked. *)
Lemma process_tracks_before_sanitize_example :
  is_Some
    (_noteon_patches
       (eng (world_of
               (process example_patch_process this_buffer
                  (set_channel 16 note_on_60) (mkWorld engine_scene_1 []))
               (mkWorld engine_scene_1 [])))
     !! make_notekey (set_channel 16 note_on_60)).
Proof.
  apply (process_tracks_before_sanitize example_patch_process this_buffer
           (set_channel 16 note_on_60) (mkWorld engine_scene_1 [])).
  - reflexivity.
  - vm_compute. reflexivity.
Defined.
